(** * Initial conditions of the hydro-radial land-ice test case

    A shallow embedding of
    [test_cases/ocean/landice/hydro-radial/setup_hydro-radial_initial_conditions.py]
    and the properties of the fields it writes.

    The script is a straight line of NumPy array statements over the
    variables of a NetCDF grid file.  Here the file is a record of arrays,
    every statement is a function on that record, and a statement that
    raises in Python (an empty array passed to [min], a shape mismatch, a
    missing record, a division by zero) returns [None].

    There are two models of the numbers.  In the main development they
    are real numbers and the arithmetic is exact ([x ** 2] is [Rsqr],
    [x ** 0.5] is [sqrt]); it carries the properties that do not depend on
    rounding: the masks and the order of the writes, the closed forms of
    the fields, frames, shapes and bounds.  Module [B64] has the same
    statements over binary64, each operation rounding as NumPy's does; it
    computes, and the values the script stores are checked there.  What
    holds in exact arithmetic alone (equal coordinate differences after the
    shift, a strictly decreasing thickness, the value 95 at the radius
    22500, the choice of the geometrically nearest cell) is not stated of
    the script; module [B64Facts] has the runs that show it to fail.

    The arrays have the shapes the dimensions of the file give them, so two
    arrays of different lengths in one elementwise statement are an error
    (NumPy would stretch an array of length 1), and so is a write to record
    0 of a variable without records (NetCDF would grow an unlimited
    dimension).  What a run that raises has already written to the file is
    not kept: the properties below are on the runs that reach line 89. *)

From Stdlib Require Import Reals Lra Lia List Arith Bool Machin.
From Stdlib Require String Floats QArith.
Import ListNotations.
Import String.StringSyntax.
Delimit Scope string_scope with string.
Set Warnings "-inexact-float".
Open Scope R_scope.

(** ** The error monad of the script *)

Notation "x <- c1 ;; c2" :=
  (match c1 with Some x => c2 | None => None end)
  (at level 61, c1 at next level, right associativity).

(** ** NumPy operations used by the script *)

Module Np.

(** Elementwise comparisons [a < b], [a > b], [a == b]. *)
Definition ltb (x y : R) : bool := if Rlt_dec x y then true else false.
Definition gtb (x y : R) : bool := ltb y x.
Definition eqb (x y : R) : bool := if Req_dec_T x y then true else false.

(** [a.min()] and [a.max()]: a [ValueError] on an empty array. *)
Definition amin (a : list R) : option R :=
  match a with
  | [] => None
  | x :: t => Some (fold_left Rmin t x)
  end.

Definition amax (a : list R) : option R :=
  match a with
  | [] => None
  | x :: t => Some (fold_left Rmax t x)
  end.

(** [a.argmin()]: the index of the first occurrence of the minimum; a
    [ValueError] on an empty array. *)
Fixpoint argmin_loop (a : list R) (i best_i : nat) (best : R) : nat :=
  match a with
  | [] => best_i
  | x :: t =>
      if Rlt_dec x best then argmin_loop t (S i) i x
      else argmin_loop t (S i) best_i best
  end.

Definition argmin (a : list R) : option nat :=
  match a with
  | [] => None
  | x :: t => Some (argmin_loop t 1 0 x)
  end.

(** An elementwise binary operation on two arrays of one shape. *)
Fixpoint zip_with (f : R -> R -> R) (a b : list R) : option (list R) :=
  match a, b with
  | [], [] => Some []
  | x :: a', y :: b' => t <- zip_with f a' b' ;; Some (f x y :: t)
  | _, _ => None
  end.

(** [a[mask]]: the entries of [a] where the mask holds, in order. *)
Fixpoint compress (mask : list bool) (a : list R) : list R :=
  match mask, a with
  | m :: mask', x :: a' =>
      if m then x :: compress mask' a' else compress mask' a'
  | _, _ => []
  end.

(** [row[mask] = vals]: the k-th value goes to the k-th selected entry.
    The mask has the length of the row, and there are as many values as
    selected entries. *)
Fixpoint mask_assign (row : list R) (mask : list bool) (vals : list R)
  : option (list R) :=
  match row, mask with
  | [], [] => match vals with [] => Some [] | _ :: _ => None end
  | x :: row', m :: mask' =>
      if m then
        match vals with
        | v :: vals' => t <- mask_assign row' mask' vals' ;; Some (v :: t)
        | [] => None
        end
      else t <- mask_assign row' mask' vals ;; Some (x :: t)
  | _, _ => None
  end.

(** A statement on the entries of [a] where the mask holds; the mask has
    the length of [a] (an [IndexError] otherwise). *)
Fixpoint mask_apply {A : Type} (f : A -> A) (a : list A) (mask : list bool)
  : option (list A) :=
  match a, mask with
  | [], [] => Some []
  | x :: a', m :: mask' =>
      t <- mask_apply f a' mask' ;; Some ((if m then f x else x) :: t)
  | _, _ => None
  end.

(** [row[mask] = v] for a scalar [v]. *)
Definition mask_fill (row : list R) (mask : list bool) (v : R)
  : option (list R) :=
  mask_apply (fun _ => v) row mask.

(** [a[mask, :] = v] on a cell-by-level array, for a scalar [v]. *)
Definition mask_fill_rows (a : list (list R)) (mask : list bool) (v : R)
  : option (list (list R)) :=
  mask_apply (map (fun _ => v)) a mask.

(** [row[:] = vals] for an array [vals] of the shape of [row]. *)
Definition assign (row vals : list R) : option (list R) :=
  if Nat.eqb (length row) (length vals) then Some vals else None.

(** [a[0, ...] = ...]: a statement on record 0 of the leading dimension.
    The record has to be there. *)
Definition on_record0 {A : Type} (f : A -> option A) (a : list A)
  : option (list A) :=
  match a with
  | [] => None
  | rec0 :: rest => rec0' <- f rec0 ;; Some (rec0' :: rest)
  end.

(** [levels[-1] = v]: an [IndexError] when there is no level. *)
Definition set_last (levels : list R) (v : R) : option (list R) :=
  match levels with
  | [] => None
  | _ :: _ => Some (removelast levels ++ [v])
  end.

(** [a[:, -1] = vals] on a cell-by-level array. *)
Fixpoint assign_last (a : list (list R)) (vals : list R)
  : option (list (list R)) :=
  match a, vals with
  | [], [] => Some []
  | levels :: a', v :: vals' =>
      levels' <- set_last levels v ;;
      t <- assign_last a' vals' ;;
      Some (levels' :: t)
  | _, _ => None
  end.

(** The sum of the entries of an array. *)
Definition sum (a : list R) : R := fold_right Rplus 0 a.

End Np.

(** ** The grid file *)

(** The variables and the dimension the script reads.  [thickness],
    [bedTopography], [sfcMassBal], [meltInput] and [waterThickness] are
    record-by-cell arrays, [uReconstructX] is record-by-cell-by-level. *)
Record Dataset : Type := mkDataset {
  nVertLevels : nat;
  xCell : list R;
  yCell : list R;
  xEdge : list R;
  yEdge : list R;
  xVertex : list R;
  yVertex : list R;
  thickness : list (list R);
  bedTopography : list (list R);
  layerThicknessFractions : list R;
  sfcMassBal : list (list R);
  meltInput : list (list R);
  uReconstructX : list (list (list R));
  waterThickness : list (list R)
}.

(** ** The script *)

(** Lines 35-36: [a.min() + 0.5 * (a.max() - a.min())]. *)
Definition domain_center (a : list R) : option R :=
  lo <- Np.amin a ;;
  hi <- Np.amax a ;;
  Some (lo + 0.5 * (hi - lo)).

(** Lines 38 and 57: [((xCell - x0)**2 + (yCell - y0)**2)**0.5]. *)
Definition radius (x0 y0 x y : R) : R :=
  sqrt (Rsqr (x - x0) + Rsqr (y - y0)).

Definition radii (x y : list R) (x0 y0 : R) : option (list R) :=
  Np.zip_with (radius x0 y0) x y.

(** Lines 35-44: the index of the cell closest to the center of the
    domain. *)
Definition centerCellIndex (gridfile : Dataset) : option nat :=
  x0 <- domain_center (xCell gridfile) ;;
  y0 <- domain_center (yCell gridfile) ;;
  r <- radii (xCell gridfile) (yCell gridfile) x0 y0 ;;
  Np.argmin (map Rabs r).

(** Lines 46-47: the shift that brings that cell to the origin. *)
Definition shift (gridfile : Dataset) : option (R * R) :=
  c <- centerCellIndex gridfile ;;
  xc <- nth_error (xCell gridfile) c ;;
  yc <- nth_error (yCell gridfile) c ;;
  Some (-1.0 * xc, -1.0 * yc).

(** Lines 48-53: every coordinate array takes the shift. *)
Definition translate (gridfile : Dataset) (xShift yShift : R) : Dataset :=
  {| nVertLevels := nVertLevels gridfile;
     xCell := map (fun x => x + xShift) (xCell gridfile);
     yCell := map (fun y => y + yShift) (yCell gridfile);
     xEdge := map (fun x => x + xShift) (xEdge gridfile);
     yEdge := map (fun y => y + yShift) (yEdge gridfile);
     xVertex := map (fun x => x + xShift) (xVertex gridfile);
     yVertex := map (fun y => y + yShift) (yVertex gridfile);
     thickness := thickness gridfile;
     bedTopography := bedTopography gridfile;
     layerThicknessFractions := layerThicknessFractions gridfile;
     sfcMassBal := sfcMassBal gridfile;
     meltInput := meltInput gridfile;
     uReconstructX := uReconstructX gridfile;
     waterThickness := waterThickness gridfile |}.

(** Lines 43-57: the coordinates are shifted, the origin becomes (0, 0) and
    the distances to it are computed again. *)
Definition putOriginOnACell (gridfile : Dataset)
  : option (Dataset * list R) :=
  s <- shift gridfile ;;
  let xShift := fst s in
  let yShift := snd s in
  let g := translate gridfile xShift yShift in
  let x0 := 0.0 in
  let y0 := 0.0 in
  r <- radii (xCell g) (yCell g) x0 y0 ;;
  Some (g, r).

(** Lines 60-62. *)
Definition r0 : R := 25000.0.

Definition dome (r : R) : R := 500.0 * (1.0 - Rsqr (r / r0)).

Definition set_thickness (thk : list (list R)) (r : list R)
  : option (list (list R)) :=
  let inside := map (fun ri => Np.ltb ri r0) r in
  thk1 <- Np.on_record0
            (fun row => Np.mask_assign row inside
                          (map dome (Np.compress inside r))) thk ;;
  Np.on_record0
    (fun row => Np.mask_fill row (map (fun ri => Np.gtb ri 22500.0) r) 0.0)
    thk1.

(** Lines 66, 72 and 73: [a[:] = v]. *)
Definition fill (v : R) (a : list (list R)) : list (list R) :=
  map (map (fun _ => v)) a.

(** Line 69: [1.0 / nVertLevels], a [ZeroDivisionError] without levels. *)
Definition set_layerThicknessFractions (n : nat) (a : list R)
  : option (list R) :=
  match n with
  | O => None
  | S _ => Some (map (fun _ => 1.0 / INR n) a)
  end.

(** Lines 78-80.  The first value of [velo] is overwritten at once. *)
Definition velo (r : list R) : option (list R) :=
  let velo := map (fun ri => ri * 0.0) r in
  let velo := map (fun ri => (ri - 5000.0) * 100.0 / 3.14e7 / 22500.0) r in
  Np.mask_fill velo (map (fun ri => Np.ltb ri 5000.0) r) 0.0.

(** Lines 81-82: the last level of record 0 takes [velo]; then every level
    of the cells whose thickness in record 0 is zero is set to zero. *)
Definition set_uReconstructX (u : list (list (list R)))
  (thk : list (list R)) (velo : list R) : option (list (list (list R))) :=
  u1 <- Np.on_record0 (fun cells => Np.assign_last cells velo) u ;;
  thk0 <- nth_error thk 0 ;;
  Np.on_record0
    (fun cells =>
       Np.mask_fill_rows cells (map (fun t => Np.eqb t 0.0) thk0) 0.0)
    u1.

(** Line 85. *)
Definition set_waterThickness (w : list (list R)) (r : list R)
  : option (list (list R)) :=
  Np.on_record0
    (fun row =>
       Np.assign row (map (fun ri => (ri - 5000.0) / r0 * 0.5 * 0.0) r))
    w.

(** Lines 19-89. *)
Definition main (gridfile : Dataset) : option Dataset :=
  p <- putOriginOnACell gridfile ;;
  let g := fst p in
  let r := snd p in
  thk <- set_thickness (thickness g) r ;;
  let bed := fill 0.0 (bedTopography g) in
  ltf <- set_layerThicknessFractions (nVertLevels g)
           (layerThicknessFractions g) ;;
  let melt := fill 0.0002 (fill 0.0 (meltInput g)) in
  velo <- velo r ;;
  u <- set_uReconstructX (uReconstructX g) thk velo ;;
  w <- set_waterThickness (waterThickness g) r ;;
  Some {| nVertLevels := nVertLevels g;
          xCell := xCell g;
          yCell := yCell g;
          xEdge := xEdge g;
          yEdge := yEdge g;
          xVertex := xVertex g;
          yVertex := yVertex g;
          thickness := thk;
          bedTopography := bed;
          layerThicknessFractions := ltf;
          sfcMassBal := sfcMassBal g;
          meltInput := melt;
          uReconstructX := u;
          waterThickness := w |}.

(** ** The command line and the files *)

(** The files of the working directory, by name: the grid file that is
    there, if any. *)
Definition Files : Type := String.string -> option Dataset.

(** The file [name] takes the grid file [g]. *)
Definition write_file (fs : Files) (name : String.string) (g : Dataset)
  : Files :=
  fun n => if String.eqb n name then Some g else fs n.

(** Line 14. *)
Definition default_filename : String.string := "landice_grid.nc"%string.

(** Lines 13-15: [if not options.filename] holds without [-f] and with an
    empty name; the notice is printed then.  The name and what is printed. *)
Definition filename_option (option_f : option String.string)
  : String.string * list String.string :=
  match option_f with
  | Some (String.String c s) => (String.String c s, [])
  | _ =>
      (default_filename,
       ["No file specified.  Attempting to use landice_grid.nc"%string])
  end.

(** Line 91: [print] puts a space between its two arguments. *)
Definition success_line (filename : String.string) : String.string :=
  String.append "Successfully added initial conditions to: "%string
    (String.append " "%string filename).

(** Lines 8-91: the file is opened, the fields are set, the file is closed
    and the success is printed.  The files at the end and the lines
    printed. *)
Definition script (option_f : option String.string) (fs : Files)
  : option (Files * list String.string) :=
  let filename := fst (filename_option option_f) in
  let notice := snd (filename_option option_f) in
  gridfile <- fs filename ;;
  g <- main gridfile ;;
  Some (write_file fs filename g, notice ++ [success_line filename]).

(** ** What is read off a grid file *)

(** The coordinates of cell [i]. *)
Definition cell_xy (g : Dataset) (i : nat) : option (R * R) :=
  x <- nth_error (xCell g) i ;;
  y <- nth_error (yCell g) i ;;
  Some (x, y).

(** The distance of cell [i] to the origin, as line 57 computes it. *)
Definition cell_radius (g : Dataset) (i : nat) : option R :=
  p <- cell_xy g i ;;
  Some (radius 0.0 0.0 (fst p) (snd p)).

(** [thickness[0, i]]. *)
Definition thickness0 (g : Dataset) (i : nat) : option R :=
  row <- nth_error (thickness g) 0 ;;
  nth_error row i.

(** [waterThickness[0, i]]. *)
Definition waterThickness0 (g : Dataset) (i : nat) : option R :=
  row <- nth_error (waterThickness g) 0 ;;
  nth_error row i.

(** The levels of cell [i] in record [t] of [uReconstructX]. *)
Definition u_levels (g : Dataset) (t i : nat) : option (list R) :=
  cells <- nth_error (uReconstructX g) t ;;
  nth_error cells i.

(** [uReconstructX[t, i, k]]. *)
Definition u_at (g : Dataset) (t i k : nat) : option R :=
  levels <- u_levels g t i ;;
  nth_error levels k.

(** [uReconstructX[0, i, -1]]. *)
Definition u_top (g : Dataset) (i : nat) : option R :=
  levels <- u_levels g 0 i ;;
  match levels with
  | [] => None
  | _ :: _ => Some (last levels 0)
  end.

(** The points of the mesh. *)
Inductive MeshPoint : Type :=
| Cell (i : nat)
| Edge (i : nat)
| Vertex (i : nat).

Definition point_x (g : Dataset) (p : MeshPoint) : option R :=
  match p with
  | Cell i => nth_error (xCell g) i
  | Edge i => nth_error (xEdge g) i
  | Vertex i => nth_error (xVertex g) i
  end.

Definition point_y (g : Dataset) (p : MeshPoint) : option R :=
  match p with
  | Cell i => nth_error (yCell g) i
  | Edge i => nth_error (yEdge g) i
  | Vertex i => nth_error (yVertex g) i
  end.

(** The cell nearest to the midpoint of the bounding box of the cells, the
    lowest index winning a tie. *)
Definition nearest_cell (g : Dataset) (c : nat) : Prop :=
  exists x0 y0 xc yc,
    domain_center (xCell g) = Some x0 /\
    domain_center (yCell g) = Some y0 /\
    cell_xy g c = Some (xc, yc) /\
    forall j xj yj, cell_xy g j = Some (xj, yj) ->
      radius x0 y0 xc yc <= radius x0 y0 xj yj /\
      ((j < c)%nat -> radius x0 y0 xc yc < radius x0 y0 xj yj).

(** The shapes the dimensions of the grid file give its variables: one
    entry per cell in the cell arrays, a record 0, one level at least. *)
Record well_shaped (g : Dataset) : Prop := mkWellShaped {
  ws_cells : xCell g <> [];
  ws_xy : length (yCell g) = length (xCell g);
  ws_levels : nVertLevels g <> O;
  ws_thickness : exists row rest,
      thickness g = row :: rest /\ length row = length (xCell g);
  ws_u : exists cells rest,
      uReconstructX g = cells :: rest /\
      length cells = length (xCell g) /\
      Forall (fun levels => levels <> []) cells;
  ws_water : exists row rest,
      waterThickness g = row :: rest /\ length row = length (xCell g)
}.

(** ** Closed forms of the fields, cell by cell *)

(** The thickness lines 61 and 62 leave at a cell of radius [r]. *)
Definition final_thickness (r : R) : R :=
  if Np.gtb r 22500.0 then 0.0 else dome r.

(** The velocity lines 79 and 80 give a cell of radius [r]. *)
Definition velo_at (r : R) : R :=
  if Np.ltb r 5000.0 then 0.0
  else (r - 5000.0) * 100.0 / 3.14e7 / 22500.0.

(** The levels lines 81 and 82 leave at a cell: the last level takes the
    velocity, and without ice every level is zero. *)
Definition final_levels (levels : list R) (v t : R) : list R :=
  let levels1 := removelast levels ++ [v] in
  if Np.eqb t 0.0 then map (fun _ => 0.0) levels1 else levels1.

(** ** A mesh to run the script on *)

(** Six cells on the line y = 2000, two edges, one vertex and two levels.
    The bounding box of the cells has its midpoint on cell 0, at
    (1000, 2000); after the recentering the cells are 0, 10000, 22500,
    23000, 24000 and 24000 away from the origin. *)
Definition demo : Dataset :=
  {| nVertLevels := 2;
     xCell := [1000; 11000; 23500; 24000; 25000; -23000];
     yCell := [2000; 2000; 2000; 2000; 2000; 2000];
     xEdge := [500; 5000];
     yEdge := [2000; 3000];
     xVertex := [1000];
     yVertex := [2500];
     thickness := [[7; 7; 7; 7; 7; 7]];
     bedTopography := [[1; 1; 1; 1; 1; 1]];
     layerThicknessFractions := [0; 0];
     sfcMassBal := [[0; 0; 0; 0; 0; 0]];
     meltInput := [[0; 0; 0; 0; 0; 0]];
     uReconstructX := [[[1; 1]; [1; 1]; [1; 1]; [1; 1]; [1; 1]; [1; 1]]];
     waterThickness := [[3; 3; 3; 3; 3; 3]] |}.

(** The distances line 57 computes on it. *)
Definition demo_r : list R := [0; 10000; 22500; 23000; 24000; 24000].

(** What the script leaves of it. *)
Definition demo_out : Dataset :=
  {| nVertLevels := 2;
     xCell := [0; 10000; 22500; 23000; 24000; -24000];
     yCell := [0; 0; 0; 0; 0; 0];
     xEdge := [-500; 4000];
     yEdge := [0; 1000];
     xVertex := [0];
     yVertex := [500];
     thickness := [[500; 420; 95; 0; 0; 0]];
     bedTopography := [[0; 0; 0; 0; 0; 0]];
     layerThicknessFractions := [0.5; 0.5];
     sfcMassBal := [[0; 0; 0; 0; 0; 0]];
     meltInput := [[0.0002; 0.0002; 0.0002; 0.0002; 0.0002; 0.0002]];
     uReconstructX :=
       [[[1; 0];
         [1; 5000 * 100 / 31400000 / 22500];
         [1; 17500 * 100 / 31400000 / 22500];
         [0; 0]; [0; 0]; [0; 0]]];
     waterThickness := [[0; 0; 0; 0; 0; 0]] |}.

(** A working directory with the mesh [demo] under the default name and
    under another name. *)
Definition demo_files : Files :=
  fun n =>
    if String.eqb n default_filename then Some demo
    else if String.eqb n "dome.nc"%string then Some demo
    else None.

(** ** The script in binary64 *)

(** The same statements over the binary64 numbers of the kernel, where
    every operation rounds as NumPy's does.  This is the model the
    statements on stored values are checked against.  [x ** 2] is NumPy's
    [square], [x * x], and [x ** 0.5] its [sqrt]. *)
Module B64.

Import PrimFloat.
Local Open Scope float_scope.

(** [minimum] and [maximum] as the reductions [min] and [max] apply them:
    the left argument stays when it is smaller (greater) or not a
    number. *)
Definition fmin (in1 in2 : float) : float :=
  if (in1 <? in2) || is_nan in1 then in1 else in2.

Definition fmax (in1 in2 : float) : float :=
  if (in2 <? in1) || is_nan in1 then in1 else in2.

Definition amin (a : list float) : option float :=
  match a with
  | [] => None
  | x :: t => Some (fold_left fmin t x)
  end.

Definition amax (a : list float) : option float :=
  match a with
  | [] => None
  | x :: t => Some (fold_left fmax t x)
  end.

(** [argmin]: a later entry replaces the best one when [entry >= best]
    fails; the scan stops on a value that is not a number. *)
Fixpoint argmin_loop (a : list float) (i best_i : nat) (best : float)
  : nat :=
  match a with
  | [] => best_i
  | x :: t =>
      if is_nan best then best_i
      else if best <=? x then argmin_loop t (S i) best_i best
      else argmin_loop t (S i) i x
  end.

Definition argmin (a : list float) : option nat :=
  match a with
  | [] => None
  | x :: t => Some (argmin_loop t 1 0 x)
  end.

Fixpoint zip_with (f : float -> float -> float) (a b : list float)
  : option (list float) :=
  match a, b with
  | [], [] => Some []
  | x :: a', y :: b' => t <- zip_with f a' b' ;; Some (f x y :: t)
  | _, _ => None
  end.

Fixpoint compress (mask : list bool) (a : list float) : list float :=
  match mask, a with
  | m :: mask', x :: a' =>
      if m then x :: compress mask' a' else compress mask' a'
  | _, _ => []
  end.

Fixpoint mask_assign (row : list float) (mask : list bool)
  (vals : list float) : option (list float) :=
  match row, mask with
  | [], [] => match vals with [] => Some [] | _ :: _ => None end
  | x :: row', m :: mask' =>
      if m then
        match vals with
        | v :: vals' => t <- mask_assign row' mask' vals' ;; Some (v :: t)
        | [] => None
        end
      else t <- mask_assign row' mask' vals ;; Some (x :: t)
  | _, _ => None
  end.

Definition mask_fill (row : list float) (mask : list bool) (v : float)
  : option (list float) :=
  Np.mask_apply (fun _ => v) row mask.

Definition mask_fill_rows (a : list (list float)) (mask : list bool)
  (v : float) : option (list (list float)) :=
  Np.mask_apply (map (fun _ => v)) a mask.

Definition assign (row vals : list float) : option (list float) :=
  if Nat.eqb (length row) (length vals) then Some vals else None.

Definition set_last (levels : list float) (v : float)
  : option (list float) :=
  match levels with
  | [] => None
  | _ :: _ => Some (removelast levels ++ [v])
  end.

Fixpoint assign_last (a : list (list float)) (vals : list float)
  : option (list (list float)) :=
  match a, vals with
  | [], [] => Some []
  | levels :: a', v :: vals' =>
      levels' <- set_last levels v ;;
      t <- assign_last a' vals' ;;
      Some (levels' :: t)
  | _, _ => None
  end.

(** The integer [nVertLevels] as a binary64 number (exact below 2^53). *)
Fixpoint of_nat (n : nat) : float :=
  match n with
  | O => 0
  | S k => of_nat k + 1
  end.

Record Dataset : Type := mkDataset {
  nVertLevels : nat;
  xCell : list float;
  yCell : list float;
  xEdge : list float;
  yEdge : list float;
  xVertex : list float;
  yVertex : list float;
  thickness : list (list float);
  bedTopography : list (list float);
  layerThicknessFractions : list float;
  sfcMassBal : list (list float);
  meltInput : list (list float);
  uReconstructX : list (list (list float));
  waterThickness : list (list float)
}.

(** Lines 35-36. *)
Definition domain_center (a : list float) : option float :=
  lo <- amin a ;;
  hi <- amax a ;;
  Some (lo + 0.5 * (hi - lo)).

(** Lines 38 and 57. *)
Definition radius (x0 y0 x y : float) : float :=
  sqrt ((x - x0) * (x - x0) + (y - y0) * (y - y0)).

Definition radii (x y : list float) (x0 y0 : float) : option (list float) :=
  zip_with (radius x0 y0) x y.

(** Lines 35-44. *)
Definition centerCellIndex (gridfile : Dataset) : option nat :=
  x0 <- domain_center (xCell gridfile) ;;
  y0 <- domain_center (yCell gridfile) ;;
  r <- radii (xCell gridfile) (yCell gridfile) x0 y0 ;;
  argmin (map abs r).

(** Lines 46-47. *)
Definition shift (gridfile : Dataset) : option (float * float) :=
  c <- centerCellIndex gridfile ;;
  xc <- nth_error (xCell gridfile) c ;;
  yc <- nth_error (yCell gridfile) c ;;
  Some (-1.0 * xc, -1.0 * yc).

(** Lines 48-53. *)
Definition translate (gridfile : Dataset) (xShift yShift : float)
  : Dataset :=
  {| nVertLevels := nVertLevels gridfile;
     xCell := map (fun x => x + xShift) (xCell gridfile);
     yCell := map (fun y => y + yShift) (yCell gridfile);
     xEdge := map (fun x => x + xShift) (xEdge gridfile);
     yEdge := map (fun y => y + yShift) (yEdge gridfile);
     xVertex := map (fun x => x + xShift) (xVertex gridfile);
     yVertex := map (fun y => y + yShift) (yVertex gridfile);
     thickness := thickness gridfile;
     bedTopography := bedTopography gridfile;
     layerThicknessFractions := layerThicknessFractions gridfile;
     sfcMassBal := sfcMassBal gridfile;
     meltInput := meltInput gridfile;
     uReconstructX := uReconstructX gridfile;
     waterThickness := waterThickness gridfile |}.

(** Lines 43-57. *)
Definition putOriginOnACell (gridfile : Dataset)
  : option (Dataset * list float) :=
  s <- shift gridfile ;;
  let xShift := fst s in
  let yShift := snd s in
  let g := translate gridfile xShift yShift in
  let x0 := 0.0 in
  let y0 := 0.0 in
  r <- radii (xCell g) (yCell g) x0 y0 ;;
  Some (g, r).

(** Lines 60-62. *)
Definition r0 : float := 25000.0.

Definition dome (r : float) : float :=
  500.0 * (1.0 - (r / r0) * (r / r0)).

Definition set_thickness (thk : list (list float)) (r : list float)
  : option (list (list float)) :=
  let inside := map (fun ri => ri <? r0) r in
  thk1 <- Np.on_record0
            (fun row => mask_assign row inside
                          (map dome (compress inside r))) thk ;;
  Np.on_record0
    (fun row => mask_fill row (map (fun ri => 22500.0 <? ri) r) 0.0)
    thk1.

(** Lines 66, 72 and 73. *)
Definition fill (v : float) (a : list (list float)) : list (list float) :=
  map (map (fun _ => v)) a.

(** Line 69. *)
Definition set_layerThicknessFractions (n : nat) (a : list float)
  : option (list float) :=
  match n with
  | O => None
  | S _ => Some (map (fun _ => 1.0 / of_nat n) a)
  end.

(** Lines 78-80. *)
Definition velo (r : list float) : option (list float) :=
  let velo := map (fun ri => ri * 0.0) r in
  let velo := map (fun ri => (ri - 5000.0) * 100.0 / 3.14e7 / 22500.0) r in
  mask_fill velo (map (fun ri => ri <? 5000.0) r) 0.0.

(** Lines 81-82. *)
Definition set_uReconstructX (u : list (list (list float)))
  (thk : list (list float)) (velo : list float)
  : option (list (list (list float))) :=
  u1 <- Np.on_record0 (fun cells => assign_last cells velo) u ;;
  thk0 <- nth_error thk 0 ;;
  Np.on_record0
    (fun cells => mask_fill_rows cells (map (fun t => t =? 0.0) thk0) 0.0)
    u1.

(** Line 85. *)
Definition set_waterThickness (w : list (list float)) (r : list float)
  : option (list (list float)) :=
  Np.on_record0
    (fun row =>
       assign row (map (fun ri => (ri - 5000.0) / r0 * 0.5 * 0.0) r))
    w.

(** Lines 19-89. *)
Definition main (gridfile : Dataset) : option Dataset :=
  p <- putOriginOnACell gridfile ;;
  let g := fst p in
  let r := snd p in
  thk <- set_thickness (thickness g) r ;;
  let bed := fill 0.0 (bedTopography g) in
  ltf <- set_layerThicknessFractions (nVertLevels g)
           (layerThicknessFractions g) ;;
  let melt := fill 0.0002 (fill 0.0 (meltInput g)) in
  velo <- velo r ;;
  u <- set_uReconstructX (uReconstructX g) thk velo ;;
  w <- set_waterThickness (waterThickness g) r ;;
  Some {| nVertLevels := nVertLevels g;
          xCell := xCell g;
          yCell := yCell g;
          xEdge := xEdge g;
          yEdge := yEdge g;
          xVertex := xVertex g;
          yVertex := yVertex g;
          thickness := thk;
          bedTopography := bed;
          layerThicknessFractions := ltf;
          sfcMassBal := sfcMassBal g;
          meltInput := melt;
          uReconstructX := u;
          waterThickness := w |}.

(** What is read off a grid file. *)
Definition cell_xy (g : Dataset) (i : nat) : option (float * float) :=
  x <- nth_error (xCell g) i ;;
  y <- nth_error (yCell g) i ;;
  Some (x, y).

Definition cell_radius (g : Dataset) (i : nat) : option float :=
  p <- cell_xy g i ;;
  Some (radius 0.0 0.0 (fst p) (snd p)).

Definition thickness0 (g : Dataset) (i : nat) : option float :=
  row <- nth_error (thickness g) 0 ;;
  nth_error row i.

(** A mesh of cells on the line y = 0, with one level, no edge and no
    vertex, and every field 0 in its one record. *)
Definition line_mesh (xs : list float) : Dataset :=
  {| nVertLevels := 1;
     xCell := xs;
     yCell := map (fun _ => 0) xs;
     xEdge := [];
     yEdge := [];
     xVertex := [];
     yVertex := [];
     thickness := [map (fun _ => 0) xs];
     bedTopography := [map (fun _ => 0) xs];
     layerThicknessFractions := [0];
     sfcMassBal := [map (fun _ => 0) xs];
     meltInput := [map (fun _ => 0) xs];
     uReconstructX := [map (fun _ => [0]) xs];
     waterThickness := [map (fun _ => 0) xs] |}.


(** Three cells; the middle one is chosen. *)
Definition uneven_mesh : Dataset := line_mesh [0.1; 0.2; 1.1].

(** Cells 0, 0.0001, 22500, 23000, 24000 and 24000 away from cell 0. *)
Definition dome_mesh : Dataset :=
  line_mesh [0; 0.0001; 22500; 23000; 24000; -24000].

(** What the script leaves of [dome_mesh]. *)
Definition dome_mesh_out : Dataset :=
  {| nVertLevels := 1;
     xCell := [0; 0.0001; 22500; 23000; 24000; -24000];
     yCell := [0; 0; 0; 0; 0; 0];
     xEdge := [];
     yEdge := [];
     xVertex := [];
     yVertex := [];
     thickness := [[500; 500; 94.999999999999972; 0; 0; 0]];
     bedTopography := [[0; 0; 0; 0; 0; 0]];
     layerThicknessFractions := [1];
     sfcMassBal := [[0; 0; 0; 0; 0; 0]];
     meltInput := [[0.0002; 0.0002; 0.0002; 0.0002; 0.0002; 0.0002]];
     uReconstructX :=
       [[[0]; [0]; [2.4769992922859165e-06]; [0]; [0]; [0]]];
     waterThickness := [[-0; -0; 0; 0; 0; 0]] |}.

End B64.

(** ** The geometry of a mesh in exact arithmetic *)

(** The cell nearest to the midpoint of the bounding box, the lowest index
    winning a tie, for the rational numbers the binary64 coordinates
    stand for.  Distances are compared by their squares. *)
Module Geometry.

Import QArith.
Local Open Scope Q_scope.

(** The rational number a finite binary64 number stands for. *)
Definition value (f : PrimFloat.float) : option Q :=
  match FloatOps.Prim2SF f with
  | SpecFloat.S754_zero _ => Some 0
  | SpecFloat.S754_finite s m e =>
      Some ((if s then - inject_Z (Zpos m) else inject_Z (Zpos m))
            * Qpower 2 e)
  | _ => None
  end.

Fixpoint values (a : list PrimFloat.float) : option (list Q) :=
  match a with
  | [] => Some []
  | f :: t => q <- value f ;; qs <- values t ;; Some (q :: qs)
  end.

Definition qmin (x y : Q) : Q := if Qle_bool x y then x else y.
Definition qmax (x y : Q) : Q := if Qle_bool x y then y else x.

Definition midpoint (a : list Q) : option Q :=
  match a with
  | [] => None
  | x :: t =>
      let lo := fold_left qmin t x in
      let hi := fold_left qmax t x in
      Some (lo + (hi - lo) / 2)
  end.

Definition distance2 (x0 y0 x y : Q) : Q :=
  (x - x0) * (x - x0) + (y - y0) * (y - y0).

Fixpoint first_least (a : list Q) (i best_i : nat) (best : Q) : nat :=
  match a with
  | [] => best_i
  | x :: t =>
      if Qle_bool best x then first_least t (S i) best_i best
      else first_least t (S i) i x
  end.

Definition nearest_cell (xs ys : list PrimFloat.float) : option nat :=
  qx <- values xs ;;
  qy <- values ys ;;
  x0 <- midpoint qx ;;
  y0 <- midpoint qy ;;
  match map (fun p => distance2 x0 y0 (fst p) (snd p)) (combine qx qy) with
  | [] => None
  | d :: t => Some (first_least t 1 0 d)
  end.

End Geometry.

(** ** Facts on the array operations *)

Section ArrayFacts.

Lemma zip_with_nth (f : R -> R -> R) :
  forall a b l, Np.zip_with f a b = Some l ->
  forall i, nth_error l i =
            (x <- nth_error a i ;; y <- nth_error b i ;; Some (f x y)).
Proof.
  induction a as [|x a IH]; intros [|y b] l H; simpl in H; try discriminate.
  - injection H as <-. intros [|i]; reflexivity.
  - destruct (Np.zip_with f a b) as [t|] eqn:E; [|discriminate].
    injection H as <-. intros [|i]; simpl; [reflexivity|].
    apply IH; assumption.
Qed.

Lemma zip_with_length (f : R -> R -> R) :
  forall a b l, Np.zip_with f a b = Some l ->
  length l = length a /\ length b = length a.
Proof.
  induction a as [|x a IH]; intros [|y b] l H; simpl in H; try discriminate.
  - injection H as <-. split; reflexivity.
  - destruct (Np.zip_with f a b) as [t|] eqn:E; [|discriminate].
    injection H as <-. destruct (IH _ _ E) as [H1 H2].
    simpl. split; congruence.
Qed.

Lemma zip_with_total (f : R -> R -> R) :
  forall a b, length b = length a ->
  Np.zip_with f a b = Some (map (fun p => f (fst p) (snd p)) (combine a b)).
Proof.
  induction a as [|x a IH]; intros [|y b] H; simpl in H; try discriminate.
  - reflexivity.
  - simpl. rewrite IH by congruence. reflexivity.
Qed.

Lemma mask_apply_nth {A : Type} (f : A -> A) :
  forall a mask a', Np.mask_apply f a mask = Some a' ->
  forall i, nth_error a' i =
            (x <- nth_error a i ;; m <- nth_error mask i ;;
             Some (if m : bool then f x else x)).
Proof.
  induction a as [|x a IH]; intros [|m mask] a' H; simpl in H;
    try discriminate.
  - injection H as <-. intros [|i]; reflexivity.
  - destruct (Np.mask_apply f a mask) as [t|] eqn:E; [|discriminate].
    injection H as <-. intros [|i]; simpl; [reflexivity|].
    apply IH; assumption.
Qed.

Lemma mask_apply_length {A : Type} (f : A -> A) :
  forall a mask a', Np.mask_apply f a mask = Some a' ->
  length a' = length a /\ length mask = length a.
Proof.
  induction a as [|x a IH]; intros [|m mask] a' H; simpl in H;
    try discriminate.
  - injection H as <-. split; reflexivity.
  - destruct (Np.mask_apply f a mask) as [t|] eqn:E; [|discriminate].
    injection H as <-. destruct (IH _ _ E) as [H1 H2].
    simpl. split; congruence.
Qed.

Lemma mask_apply_total {A : Type} (f : A -> A) :
  forall a mask, length mask = length a ->
  exists a', Np.mask_apply f a mask = Some a'.
Proof.
  induction a as [|x a IH]; intros [|m mask] H; simpl in H;
    try discriminate.
  - exists []. reflexivity.
  - destruct (IH mask) as [t Ht]; [congruence|].
    simpl. rewrite Ht. eexists. reflexivity.
Qed.

(** Line 61 as a whole: the values computed from the selected entries of
    [r] land on the entries they were computed from. *)
Lemma mask_assign_compress_nth (p : R -> bool) (f : R -> R) :
  forall row r row',
  Np.mask_assign row (map p r) (map f (Np.compress (map p r) r))
    = Some row' ->
  forall i, nth_error row' i =
            (x <- nth_error row i ;; ri <- nth_error r i ;;
             Some (if p ri then f ri else x)).
Proof.
  induction row as [|x row IH]; intros [|ri r] row' H; simpl in H;
    try discriminate.
  - injection H as <-. intros [|i]; reflexivity.
  - destruct (p ri) eqn:Ep; simpl in H.
    + destruct (Np.mask_assign row (map p r)
                  (map f (Np.compress (map p r) r))) as [t|] eqn:E;
        [|discriminate].
      injection H as <-. intros [|i]; simpl.
      * rewrite Ep. reflexivity.
      * apply IH; assumption.
    + destruct (Np.mask_assign row (map p r)
                  (map f (Np.compress (map p r) r))) as [t|] eqn:E;
        [|discriminate].
      injection H as <-. intros [|i]; simpl.
      * rewrite Ep. reflexivity.
      * apply IH; assumption.
Qed.

Lemma mask_assign_compress_length (p : R -> bool) (f : R -> R) :
  forall row r row',
  Np.mask_assign row (map p r) (map f (Np.compress (map p r) r))
    = Some row' ->
  length row' = length row /\ length r = length row.
Proof.
  induction row as [|x row IH]; intros [|ri r] row' H; simpl in H;
    try discriminate.
  - injection H as <-. split; reflexivity.
  - destruct (p ri) eqn:Ep; simpl in H;
      destruct (Np.mask_assign row (map p r)
                  (map f (Np.compress (map p r) r))) as [t|] eqn:E;
      try discriminate;
      injection H as <-; destruct (IH _ _ E) as [H1 H2];
      simpl; split; congruence.
Qed.

Lemma mask_assign_compress_total (p : R -> bool) (f : R -> R) :
  forall row r, length r = length row ->
  exists row',
    Np.mask_assign row (map p r) (map f (Np.compress (map p r) r))
      = Some row'.
Proof.
  induction row as [|x row IH]; intros [|ri r] H; simpl in H;
    try discriminate.
  - exists []. reflexivity.
  - destruct (IH r) as [t Ht]; [congruence|].
    simpl. destruct (p ri); simpl; rewrite Ht; eexists; reflexivity.
Qed.

End ArrayFacts.

Section LastLevel.

Lemma set_last_length : forall levels v levels',
  Np.set_last levels v = Some levels' ->
  levels <> [] /\ length levels' = length levels.
Proof.
  intros [|x levels] v levels' H; [discriminate|].
  injection H as <-. split; [discriminate|].
  rewrite length_app. simpl length at 2.
  revert x. induction levels as [|y levels IH]; intros x; [reflexivity|].
  specialize (IH y). simpl in *. lia.
Qed.

Lemma set_last_below : forall levels v levels',
  Np.set_last levels v = Some levels' ->
  forall k, (S k < length levels)%nat ->
  nth_error levels' k = nth_error levels k.
Proof.
  intros [|x levels] v levels' H; [discriminate|].
  injection H as <-. revert x.
  induction levels as [|y levels IH]; intros x k Hk; simpl in Hk.
  - lia.
  - destruct k as [|k]; [reflexivity|].
    change (nth_error (removelast (y :: levels) ++ [v]) k
            = nth_error (y :: levels) k).
    apply IH. simpl. lia.
Qed.

Lemma set_last_top : forall levels v levels',
  Np.set_last levels v = Some levels' ->
  levels' <> [] /\ last levels' 0 = v.
Proof.
  intros [|x levels] v levels' H; [discriminate|].
  injection H as <-. split.
  - intros E. apply (f_equal (@length R)) in E.
    rewrite length_app in E. simpl in E. lia.
  - apply last_last.
Qed.

Lemma assign_last_nth :
  forall a vals a', Np.assign_last a vals = Some a' ->
  forall i, nth_error a' i =
            (levels <- nth_error a i ;; v <- nth_error vals i ;;
             Np.set_last levels v).
Proof.
  induction a as [|lv a IH]; intros [|v vals] a' H; simpl in H;
    try discriminate.
  - injection H as <-. intros [|i]; reflexivity.
  - destruct (Np.set_last lv v) as [lv'|] eqn:El; [|discriminate].
    destruct (Np.assign_last a vals) as [t|] eqn:E; [|discriminate].
    injection H as <-. intros [|i]; simpl.
    + rewrite El. reflexivity.
    + apply IH; assumption.
Qed.

Lemma assign_last_length :
  forall a vals a', Np.assign_last a vals = Some a' ->
  length a' = length a /\ length vals = length a.
Proof.
  induction a as [|lv a IH]; intros [|v vals] a' H; simpl in H;
    try discriminate.
  - injection H as <-. split; reflexivity.
  - destruct (Np.set_last lv v) as [lv'|] eqn:El; [|discriminate].
    destruct (Np.assign_last a vals) as [t|] eqn:E; [|discriminate].
    injection H as <-. destruct (IH _ _ E) as [H1 H2].
    simpl. split; congruence.
Qed.

Lemma assign_last_total :
  forall a vals, length vals = length a ->
  Forall (fun levels => levels <> []) a ->
  exists a', Np.assign_last a vals = Some a'.
Proof.
  induction a as [|lv a IH]; intros [|v vals] H Hne; simpl in H;
    try discriminate.
  - exists []. reflexivity.
  - inversion Hne as [|? ? Hlv Ha]; subst.
    destruct (IH vals) as [t Ht]; [congruence|assumption|].
    destruct lv as [|x lv]; [contradiction|].
    simpl. simpl in Ht. rewrite Ht. eexists. reflexivity.
Qed.

End LastLevel.

Section Argmin.

(** The loop keeps the first least entry of what it has seen. *)
Lemma argmin_loop_spec : forall t pre best_i best,
  nth_error pre best_i = Some best ->
  (forall j x, nth_error pre j = Some x ->
               best <= x /\ ((j < best_i)%nat -> best < x)) ->
  exists v,
    nth_error (pre ++ t) (Np.argmin_loop t (length pre) best_i best)
      = Some v /\
    forall j x, nth_error (pre ++ t) j = Some x ->
      v <= x /\
      ((j < Np.argmin_loop t (length pre) best_i best)%nat -> v < x).
Proof.
  induction t as [|y t IH]; intros pre best_i best Hb Hinv.
  - simpl. rewrite app_nil_r. exists best. split; assumption.
  - assert (Hlt : (best_i < length pre)%nat).
    { apply nth_error_Some. congruence. }
    assert (Hy : nth_error (pre ++ [y]) (length pre) = Some y).
    { rewrite nth_error_app2 by lia. rewrite Nat.sub_diag. reflexivity. }
    assert (Hsplit : forall j x, nth_error (pre ++ [y]) j = Some x ->
               nth_error pre j = Some x \/ (j = length pre /\ x = y)).
    { intros j x Hj. destruct (Nat.lt_ge_cases j (length pre)) as [Hl|Hl].
      - left. rewrite nth_error_app1 in Hj by assumption. exact Hj.
      - right. rewrite nth_error_app2 in Hj by assumption.
        destruct (j - length pre)%nat as [|k] eqn:Ek; simpl in Hj.
        + split; [lia|congruence].
        + destruct k; discriminate. }
    replace (pre ++ y :: t) with ((pre ++ [y]) ++ t)
      by (rewrite <- app_assoc; reflexivity).
    replace (S (length pre)) with (length (pre ++ [y]))
      by (rewrite length_app; simpl; lia).
    simpl. destruct (Rlt_dec y best) as [Hyb|Hyb].
    + replace (S (length pre)) with (length (pre ++ [y]))
        by (rewrite length_app; simpl; lia).
      apply IH; [exact Hy|].
      intros j x Hj. destruct (Hsplit _ _ Hj) as [Hp|[-> ->]].
      * destruct (Hinv _ _ Hp) as [H1 _]. split; intros; lra.
      * split; [lra|lia].
    + replace (S (length pre)) with (length (pre ++ [y]))
        by (rewrite length_app; simpl; lia).
      apply IH.
      * rewrite nth_error_app1 by assumption. exact Hb.
      * intros j x Hj. destruct (Hsplit _ _ Hj) as [Hp|[-> ->]].
        -- apply Hinv; assumption.
        -- split; [lra|lia].
Qed.

(** [argmin] returns the first index of the least entry. *)
Lemma argmin_spec : forall a c,
  Np.argmin a = Some c ->
  exists v, nth_error a c = Some v /\
    forall j x, nth_error a j = Some x ->
                v <= x /\ ((j < c)%nat -> v < x).
Proof.
  intros [|y t] c H; [discriminate|].
  injection H as <-.
  apply (argmin_loop_spec t [y] 0%nat y); [reflexivity|].
  intros [|j] x Hj; simpl in Hj.
  - injection Hj as <-. split; [lra|lia].
  - destruct j; discriminate.
Qed.

Lemma argmin_total : forall a, a <> [] -> exists c, Np.argmin a = Some c.
Proof.
  intros [|y t] H; [contradiction|]. eexists. reflexivity.
Qed.

(** There is one first index of the least entry. *)
Lemma first_least_unique : forall (a : list R) c1 c2 v1 v2,
  nth_error a c1 = Some v1 ->
  (forall j x, nth_error a j = Some x ->
               v1 <= x /\ ((j < c1)%nat -> v1 < x)) ->
  nth_error a c2 = Some v2 ->
  (forall j x, nth_error a j = Some x ->
               v2 <= x /\ ((j < c2)%nat -> v2 < x)) ->
  c1 = c2.
Proof.
  intros a c1 c2 v1 v2 H1 L1 H2 L2.
  destruct (L1 _ _ H2) as [A1 B1]. destruct (L2 _ _ H1) as [A2 B2].
  destruct (Nat.lt_trichotomy c1 c2) as [Hc|[Hc|Hc]]; [|assumption|].
  - specialize (B2 Hc). lra.
  - specialize (B1 Hc). lra.
Qed.

End Argmin.

(** ** The statements of the script, one by one *)

Section Recentering.

Lemma radius_nonneg x0 y0 x y : 0 <= radius x0 y0 x y.
Proof. apply sqrt_pos. Qed.

Lemma radii_nth x y x0 y0 r :
  radii x y x0 y0 = Some r ->
  forall j, nth_error r j =
            (xj <- nth_error x j ;; yj <- nth_error y j ;;
             Some (radius x0 y0 xj yj)).
Proof. intros H j. apply (zip_with_nth _ _ _ _ H). Qed.

Lemma radii_abs_nth x y x0 y0 r :
  radii x y x0 y0 = Some r ->
  forall j, nth_error (map Rabs r) j =
            (xj <- nth_error x j ;; yj <- nth_error y j ;;
             Some (radius x0 y0 xj yj)).
Proof.
  intros H j. rewrite nth_error_map, (radii_nth _ _ _ _ _ H).
  destruct (nth_error x j) as [xj|]; [|reflexivity].
  destruct (nth_error y j) as [yj|]; [|reflexivity].
  simpl. rewrite Rabs_pos_eq by apply radius_nonneg. reflexivity.
Qed.

Lemma radii_total x y x0 y0 :
  length y = length x -> exists r, radii x y x0 y0 = Some r.
Proof.
  intros H. eexists. apply zip_with_total. exact H.
Qed.

Lemma domain_center_total a : a <> [] -> exists c, domain_center a = Some c.
Proof.
  destruct a as [|x t]; [contradiction|]. intros _.
  eexists. reflexivity.
Qed.

(** The index the script picks is the nearest cell of the statement. *)
Lemma centerCellIndex_nearest g c :
  centerCellIndex g = Some c -> nearest_cell g c.
Proof.
  unfold centerCellIndex. intros H.
  destruct (domain_center (xCell g)) as [x0|] eqn:Ex; [|discriminate].
  destruct (domain_center (yCell g)) as [y0|] eqn:Ey; [|discriminate].
  destruct (radii (xCell g) (yCell g) x0 y0) as [r|] eqn:Er;
    [|discriminate].
  destruct (argmin_spec _ _ H) as [v [Hv Hmin]].
  rewrite (radii_abs_nth _ _ _ _ _ Er) in Hv.
  destruct (nth_error (xCell g) c) as [xc|] eqn:Exc; [|discriminate].
  destruct (nth_error (yCell g) c) as [yc|] eqn:Eyc; [|discriminate].
  injection Hv as <-.
  exists x0, y0, xc, yc.
  split; [exact Ex|]. split; [exact Ey|]. split.
  { unfold cell_xy. rewrite Exc, Eyc. reflexivity. }
  intros j xj yj Hj. unfold cell_xy in Hj.
  destruct (nth_error (xCell g) j) as [xj'|] eqn:Exj; [|discriminate].
  destruct (nth_error (yCell g) j) as [yj'|] eqn:Eyj; [|discriminate].
  injection Hj as <- <-.
  apply (Hmin j). rewrite (radii_abs_nth _ _ _ _ _ Er), Exj, Eyj.
  reflexivity.
Qed.

Lemma nearest_cell_unique g c1 c2 :
  nearest_cell g c1 -> nearest_cell g c2 -> c1 = c2.
Proof.
  intros (x0 & y0 & xc & yc & Hx & Hy & Hc & Hmin)
         (x0' & y0' & xc' & yc' & Hx' & Hy' & Hc' & Hmin').
  rewrite Hx in Hx'. injection Hx' as <-.
  rewrite Hy in Hy'. injection Hy' as <-.
  destruct (Hmin _ _ _ Hc') as [A1 B1].
  destruct (Hmin' _ _ _ Hc) as [A2 B2].
  destruct (Nat.lt_trichotomy c1 c2) as [Hlt|[Heq|Hlt]]; [|assumption|].
  - specialize (B2 Hlt). lra.
  - specialize (B1 Hlt). lra.
Qed.

Lemma centerCellIndex_total g :
  xCell g <> [] -> length (yCell g) = length (xCell g) ->
  exists c, centerCellIndex g = Some c.
Proof.
  intros Hne Hlen. unfold centerCellIndex.
  destruct (domain_center_total _ Hne) as [x0 ->].
  assert (Hney : yCell g <> []).
  { intros E. rewrite E in Hlen. destruct (xCell g); [auto|discriminate]. }
  destruct (domain_center_total _ Hney) as [y0 ->].
  destruct (radii_total (xCell g) (yCell g) x0 y0 Hlen) as [r Hr].
  rewrite Hr. apply argmin_total.
  destruct (zip_with_length _ _ _ _ Hr) as [Hl _].
  intros E. apply (f_equal (@length R)) in E.
  rewrite length_map, Hl in E. destruct (xCell g); [auto|discriminate].
Qed.

Lemma putOriginOnACell_inv g g1 r :
  putOriginOnACell g = Some (g1, r) ->
  exists c xc yc,
    centerCellIndex g = Some c /\
    nth_error (xCell g) c = Some xc /\
    nth_error (yCell g) c = Some yc /\
    g1 = translate g (-1.0 * xc) (-1.0 * yc) /\
    radii (xCell g1) (yCell g1) 0.0 0.0 = Some r.
Proof.
  unfold putOriginOnACell, shift. intros H.
  destruct (centerCellIndex g) as [c|]; [|discriminate].
  destruct (nth_error (xCell g) c) as [xc|] eqn:Exc; [|discriminate].
  destruct (nth_error (yCell g) c) as [yc|] eqn:Eyc; [|discriminate].
  cbn [fst snd] in H.
  destruct (radii _ _ 0.0 0.0) as [r'|] eqn:Er; [|discriminate].
  injection H as <- <-.
  exists c, xc, yc. repeat split; try reflexivity; assumption.
Qed.

Lemma putOriginOnACell_total g :
  xCell g <> [] -> length (yCell g) = length (xCell g) ->
  exists g1 r, putOriginOnACell g = Some (g1, r).
Proof.
  intros Hne Hlen.
  destruct (centerCellIndex_total g Hne Hlen) as [c Hc].
  pose proof (centerCellIndex_nearest g c Hc)
    as (x0 & y0 & xc & yc & _ & _ & Hxy & _).
  unfold cell_xy in Hxy.
  destruct (nth_error (xCell g) c) as [xc'|] eqn:Exc; [|discriminate].
  destruct (nth_error (yCell g) c) as [yc'|] eqn:Eyc; [|discriminate].
  unfold putOriginOnACell, shift. rewrite Hc. cbv beta iota.
  rewrite Exc, Eyc. cbn [fst snd].
  destruct (radii_total
              (xCell (translate g (-1.0 * xc') (-1.0 * yc')))
              (yCell (translate g (-1.0 * xc') (-1.0 * yc'))) 0.0 0.0)
    as [r Hr].
  { simpl. rewrite !length_map. exact Hlen. }
  rewrite Hr. eexists _, _. reflexivity.
Qed.

(** The distances of line 57 are those read off the shifted file. *)
Lemma putOriginOnACell_radius g g1 r :
  putOriginOnACell g = Some (g1, r) ->
  forall i, nth_error r i = cell_radius g1 i.
Proof.
  intros H i.
  destruct (putOriginOnACell_inv _ _ _ H)
    as (c & xc & yc & _ & _ & _ & _ & Hr).
  rewrite (radii_nth _ _ _ _ _ Hr). unfold cell_radius, cell_xy.
  destruct (nth_error (xCell g1) i); [|reflexivity].
  destruct (nth_error (yCell g1) i); reflexivity.
Qed.

Lemma putOriginOnACell_length g g1 r :
  putOriginOnACell g = Some (g1, r) ->
  length r = length (xCell g) /\ length (xCell g1) = length (xCell g).
Proof.
  intros H.
  destruct (putOriginOnACell_inv _ _ _ H)
    as (c & xc & yc & _ & _ & _ & -> & Hr).
  destruct (zip_with_length _ _ _ _ Hr) as [Hl _].
  simpl in *. rewrite length_map in Hl. rewrite length_map. auto.
Qed.

End Recentering.

Section Fields.

Lemma on_record0_inv {A : Type} (f : A -> option A) a a' :
  Np.on_record0 f a = Some a' ->
  exists rec0 rest rec0',
    a = rec0 :: rest /\ f rec0 = Some rec0' /\ a' = rec0' :: rest.
Proof.
  destruct a as [|rec0 rest]; [discriminate|]. unfold Np.on_record0.
  destruct (f rec0) as [rec0'|] eqn:E; [|discriminate].
  intros H. injection H as <-. exists rec0, rest, rec0'. auto.
Qed.

Lemma ltb_true x y : x < y -> Np.ltb x y = true.
Proof. intros H. unfold Np.ltb. destruct (Rlt_dec x y); tauto. Qed.

Lemma ltb_false x y : y <= x -> Np.ltb x y = false.
Proof.
  intros H. unfold Np.ltb. destruct (Rlt_dec x y); [lra|reflexivity].
Qed.

Lemma eqb_true x y : x = y -> Np.eqb x y = true.
Proof. intros H. unfold Np.eqb. destruct (Req_dec_T x y); tauto. Qed.

Lemma eqb_false x y : x <> y -> Np.eqb x y = false.
Proof. intros H. unfold Np.eqb. destruct (Req_dec_T x y); tauto. Qed.

Lemma set_thickness_inv thk r thk' :
  set_thickness thk r = Some thk' ->
  exists row rest row',
    thk = row :: rest /\ thk' = row' :: rest /\
    length row = length r /\ length row' = length r /\
    forall i ri, nth_error r i = Some ri ->
                 nth_error row' i = Some (final_thickness ri).
Proof.
  unfold set_thickness. intros H.
  destruct (Np.on_record0 _ thk) as [thk1|] eqn:E1; [|discriminate].
  destruct (on_record0_inv _ _ _ E1) as (row & rest & row1 & -> & F1 & ->).
  destruct (on_record0_inv _ _ _ H) as (row1' & rest' & row2 & E & F2 & ->).
  injection E as <- <-.
  destruct (mask_assign_compress_length _ _ _ _ _ F1) as [L1 L1'].
  unfold Np.mask_fill in F2.
  destruct (mask_apply_length _ _ _ _ F2) as [L2 L2'].
  exists row, rest, row2. repeat split; try congruence.
  intros i ri Hi.
  rewrite (mask_apply_nth _ _ _ _ F2 i).
  rewrite (mask_assign_compress_nth _ _ _ _ _ F1 i).
  rewrite nth_error_map, Hi.
  destruct (nth_error row i) as [x|] eqn:Ex.
  - cbn [option_map]. unfold final_thickness.
    destruct (Np.gtb ri 22500.0) eqn:Eg; [reflexivity|].
    rewrite ltb_true; [reflexivity|].
    unfold Np.gtb, Np.ltb in Eg. unfold r0.
    destruct (Rlt_dec 22500.0 ri); [discriminate|]. lra.
  - exfalso. apply nth_error_None in Ex.
    assert (i < length r)%nat by (apply nth_error_Some; congruence). lia.
Qed.

Lemma set_thickness_total thk r :
  (exists row rest, thk = row :: rest /\ length row = length r) ->
  exists thk', set_thickness thk r = Some thk'.
Proof.
  intros (row & rest & -> & Hlen). unfold set_thickness, Np.on_record0.
  destruct (mask_assign_compress_total (fun ri => Np.ltb ri r0) dome row r)
    as [row1 H1]; [congruence|].
  rewrite H1.
  destruct (mask_assign_compress_length _ _ _ _ _ H1) as [L1 _].
  destruct (mask_apply_total (fun _ : R => 0.0) row1
              (map (fun ri => Np.gtb ri 22500.0) r)) as [row2 H2].
  { rewrite length_map. congruence. }
  unfold Np.mask_fill. rewrite H2. eexists. reflexivity.
Qed.

Lemma velo_inv r v :
  velo r = Some v ->
  length v = length r /\
  forall i ri, nth_error r i = Some ri ->
               nth_error v i = Some (velo_at ri).
Proof.
  unfold velo, Np.mask_fill. intros H.
  destruct (mask_apply_length _ _ _ _ H) as [L _].
  rewrite length_map in L. split; [exact L|].
  intros i ri Hi. rewrite (mask_apply_nth _ _ _ _ H i).
  rewrite !nth_error_map, Hi. reflexivity.
Qed.

Lemma velo_total r : exists v, velo r = Some v.
Proof.
  unfold velo, Np.mask_fill. apply mask_apply_total.
  rewrite !length_map. reflexivity.
Qed.

Lemma set_uReconstructX_inv u thk v u' :
  set_uReconstructX u thk v = Some u' ->
  exists cells rest cells' thk0,
    u = cells :: rest /\ u' = cells' :: rest /\
    nth_error thk 0 = Some thk0 /\
    length cells = length v /\ length thk0 = length v /\
    forall i vi, nth_error v i = Some vi ->
      exists levels t,
        nth_error cells i = Some levels /\ levels <> [] /\
        nth_error thk0 i = Some t /\
        nth_error cells' i = Some (final_levels levels vi t).
Proof.
  unfold set_uReconstructX. intros H.
  destruct (Np.on_record0 _ u) as [u1|] eqn:E1; [|discriminate].
  destruct (nth_error thk 0) as [thk0|] eqn:Et; [|discriminate].
  destruct (on_record0_inv _ _ _ E1)
    as (cells & rest & cells1 & -> & F1 & ->).
  destruct (on_record0_inv _ _ _ H)
    as (cells1' & rest' & cells2 & E & F2 & ->).
  injection E as <- <-.
  destruct (assign_last_length _ _ _ F1) as [L1 L1'].
  unfold Np.mask_fill_rows in F2.
  destruct (mask_apply_length _ _ _ _ F2) as [L2 L2'].
  rewrite length_map in L2'.
  exists cells, rest, cells2, thk0.
  repeat split; try congruence.
  intros i vi Hi.
  assert (Hlt : (i < length v)%nat) by (apply nth_error_Some; congruence).
  destruct (nth_error cells i) as [levels|] eqn:Ec;
    [|apply nth_error_None in Ec; lia].
  destruct (nth_error thk0 i) as [t|] eqn:Eti;
    [|apply nth_error_None in Eti; lia].
  pose proof (assign_last_nth _ _ _ F1 i) as N1.
  rewrite Ec, Hi in N1.
  destruct (Np.set_last levels vi) as [levels1|] eqn:El.
  - destruct (set_last_length _ _ _ El) as [Hne _].
    exists levels, t. repeat split; try assumption.
    rewrite (mask_apply_nth _ _ _ _ F2 i), N1, nth_error_map, Eti.
    cbn [option_map]. unfold final_levels.
    destruct levels as [|x levels]; [contradiction|].
    injection El as <-. reflexivity.
  - exfalso. apply nth_error_None in N1. lia.
Qed.

Lemma set_uReconstructX_total u thk v :
  (exists cells rest, u = cells :: rest /\ length cells = length v /\
                      Forall (fun levels => levels <> []) cells) ->
  (exists thk0 rest, thk = thk0 :: rest /\ length thk0 = length v) ->
  exists u', set_uReconstructX u thk v = Some u'.
Proof.
  intros (cells & rest & -> & Hlen & Hne) (thk0 & rest' & -> & Hlen').
  unfold set_uReconstructX, Np.on_record0.
  destruct (assign_last_total cells v) as [cells1 H1];
    [congruence|assumption|].
  rewrite H1. cbn [nth_error].
  destruct (assign_last_length _ _ _ H1) as [L1 _].
  destruct (mask_apply_total (map (fun _ : R => 0.0)) cells1
              (map (fun t => Np.eqb t 0.0) thk0)) as [cells2 H2].
  { rewrite length_map. congruence. }
  unfold Np.mask_fill_rows. rewrite H2. eexists. reflexivity.
Qed.

Lemma set_waterThickness_inv w r w' :
  set_waterThickness w r = Some w' ->
  exists row rest,
    w = row :: rest /\ length row = length r /\
    w' = map (fun ri => (ri - 5000.0) / r0 * 0.5 * 0.0) r :: rest.
Proof.
  unfold set_waterThickness. intros H.
  destruct (on_record0_inv _ _ _ H) as (row & rest & row' & -> & F & ->).
  unfold Np.assign in F. rewrite length_map in F.
  destruct (Nat.eqb (length row) (length r)) eqn:E; [|discriminate].
  injection F as <-. apply Nat.eqb_eq in E.
  exists row, rest. auto.
Qed.

Lemma set_waterThickness_total w r :
  (exists row rest, w = row :: rest /\ length row = length r) ->
  exists w', set_waterThickness w r = Some w'.
Proof.
  intros (row & rest & -> & Hlen).
  unfold set_waterThickness, Np.on_record0, Np.assign.
  rewrite length_map, Hlen, Nat.eqb_refl. eexists. reflexivity.
Qed.

End Fields.

(** ** The script as a whole *)

Section Main.

Lemma main_inv g g' :
  main g = Some g' ->
  exists g1 r thk ltf v u w,
    putOriginOnACell g = Some (g1, r) /\
    set_thickness (thickness g) r = Some thk /\
    set_layerThicknessFractions (nVertLevels g) (layerThicknessFractions g)
      = Some ltf /\
    velo r = Some v /\
    set_uReconstructX (uReconstructX g) thk v = Some u /\
    set_waterThickness (waterThickness g) r = Some w /\
    g' = {| nVertLevels := nVertLevels g;
            xCell := xCell g1;
            yCell := yCell g1;
            xEdge := xEdge g1;
            yEdge := yEdge g1;
            xVertex := xVertex g1;
            yVertex := yVertex g1;
            thickness := thk;
            bedTopography := fill 0.0 (bedTopography g);
            layerThicknessFractions := ltf;
            sfcMassBal := sfcMassBal g;
            meltInput := fill 0.0002 (fill 0.0 (meltInput g));
            uReconstructX := u;
            waterThickness := w |}.
Proof.
  unfold main. intros H.
  destruct (putOriginOnACell g) as [[g1 r]|] eqn:E1; [|discriminate].
  cbn [fst snd] in H.
  destruct (putOriginOnACell_inv _ _ _ E1)
    as (c & xc & yc & _ & _ & _ & Eg & _).
  assert (Ef : thickness g1 = thickness g /\
               nVertLevels g1 = nVertLevels g /\
               layerThicknessFractions g1 = layerThicknessFractions g /\
               uReconstructX g1 = uReconstructX g /\
               waterThickness g1 = waterThickness g /\
               bedTopography g1 = bedTopography g /\
               sfcMassBal g1 = sfcMassBal g /\
               meltInput g1 = meltInput g).
  { rewrite Eg. repeat split. }
  destruct Ef as (A1 & A2 & A3 & A4 & A5 & A6 & A7 & A8).
  rewrite A1, A2, A3, A4, A5, A6, A7, A8 in H.
  destruct (set_thickness (thickness g) r) as [thk|] eqn:E2; [|discriminate].
  destruct (set_layerThicknessFractions _ _) as [ltf|] eqn:E3;
    [|discriminate].
  destruct (velo r) as [v|] eqn:E4; [|discriminate].
  destruct (set_uReconstructX _ thk v) as [u|] eqn:E5; [|discriminate].
  destruct (set_waterThickness _ r) as [w|] eqn:E6; [|discriminate].
  injection H as <-.
  exists g1, r, thk, ltf, v, u, w. repeat split; assumption.
Qed.

(** On a well-shaped grid file the script runs to its end. *)
Lemma main_total g : well_shaped g -> exists g', main g = Some g'.
Proof.
  intros [Hne Hxy Hlev Hthk Hu Hw].
  destruct (putOriginOnACell_total g Hne Hxy) as (g1 & r & E1).
  destruct (putOriginOnACell_length _ _ _ E1) as [Lr _].
  destruct (putOriginOnACell_inv _ _ _ E1)
    as (c & xc & yc & _ & _ & _ & Eg & _).
  unfold main. rewrite E1. cbn [fst snd].
  rewrite Eg. cbn [thickness nVertLevels layerThicknessFractions
                   uReconstructX waterThickness bedTopography sfcMassBal
                   meltInput translate].
  destruct (set_thickness_total (thickness g) r) as [thk E2].
  { destruct Hthk as (row & rest & -> & Hl). exists row, rest.
    split; congruence. }
  rewrite E2.
  destruct (nVertLevels g) as [|n] eqn:En; [contradiction|].
  cbn [set_layerThicknessFractions].
  destruct (velo_total r) as [v E4]. rewrite E4.
  destruct (velo_inv _ _ E4) as [Lv _].
  destruct (set_thickness_inv _ _ _ E2)
    as (row & rest & row' & _ & -> & _ & Lrow' & _).
  destruct (set_uReconstructX_total (uReconstructX g) (row' :: rest) v)
    as [u E5].
  { destruct Hu as (cells & rest' & -> & Hl & Hf). exists cells, rest'.
    repeat split; congruence. }
  { exists row', rest. split; congruence. }
  rewrite E5.
  destruct (set_waterThickness_total (waterThickness g) r) as [w E6].
  { destruct Hw as (row0 & rest' & -> & Hl). exists row0, rest'.
    split; congruence. }
  rewrite E6. eexists. reflexivity.
Qed.

(** The coordinates the script leaves are those of the recentering. *)
Lemma main_coordinates g g' g1 r :
  main g = Some g' -> putOriginOnACell g = Some (g1, r) ->
  forall p, point_x g' p = point_x g1 p /\ point_y g' p = point_y g1 p.
Proof.
  intros H E1.
  destruct (main_inv _ _ H) as (g1' & r' & thk & ltf & v & u & w &
                                E1' & _ & _ & _ & _ & _ & ->).
  rewrite E1 in E1'. injection E1' as <- <-.
  intros [i|i|i]; split; reflexivity.
Qed.

(** The fields the script leaves at a cell, from the radius of the cell. *)
Lemma main_cell g g' i ri :
  main g = Some g' -> cell_radius g' i = Some ri ->
  thickness0 g' i = Some (final_thickness ri) /\
  (exists levels,
      u_levels g 0 i = Some levels /\ levels <> [] /\
      u_levels g' 0 i
        = Some (final_levels levels (velo_at ri) (final_thickness ri))) /\
  waterThickness0 g' i = Some ((ri - 5000.0) / r0 * 0.5 * 0.0).
Proof.
  intros H Hr.
  destruct (main_inv _ _ H) as (g1 & r & thk & ltf & v & u & w &
                                E1 & E2 & _ & E4 & E5 & E6 & ->).
  assert (Hri : nth_error r i = Some ri).
  { rewrite (putOriginOnACell_radius _ _ _ E1 i). exact Hr. }
  destruct (set_thickness_inv _ _ _ E2)
    as (row & rest & row' & _ & -> & _ & _ & Hthk).
  destruct (velo_inv _ _ E4) as [_ Hv].
  destruct (set_uReconstructX_inv _ _ _ _ E5)
    as (cells & urest & cells' & thk0 & Eu & -> & Et & _ & _ & Hu).
  cbn [nth_error] in Et. injection Et as <-.
  destruct (Hu i _ (Hv _ _ Hri)) as (levels & t & Hc & Hne & Ht & Hc').
  rewrite (Hthk _ _ Hri) in Ht. injection Ht as <-.
  destruct (set_waterThickness_inv _ _ _ E6) as (wrow & wrest & _ & _ & ->).
  split; [|split].
  - unfold thickness0. cbn [thickness nth_error]. apply Hthk. exact Hri.
  - exists levels. unfold u_levels. rewrite Eu.
    cbn [uReconstructX nth_error]. auto.
  - unfold waterThickness0. cbn [waterThickness nth_error].
    rewrite nth_error_map, Hri. reflexivity.
Qed.

End Main.

(** ** Evaluating the script on the mesh [demo] *)

Section Demo.

Lemma fold_min_spec : forall t x m,
  (m = x \/ In m t) -> m <= x -> (forall y, In y t -> m <= y) ->
  fold_left Rmin t x = m.
Proof.
  induction t as [|y t IH]; intros x m Hin Hx Ht; simpl.
  - destruct Hin as [->|[]]. reflexivity.
  - apply IH.
    + destruct Hin as [->|[->|Hin]].
      * left. rewrite Rmin_left; [reflexivity|]. apply Ht. left. reflexivity.
      * left. rewrite Rmin_right; [reflexivity|assumption].
      * right. assumption.
    + apply Rmin_glb; [assumption|]. apply Ht. left. reflexivity.
    + intros z Hz. apply Ht. right. assumption.
Qed.

Lemma amin_spec a m :
  In m a -> (forall y, In y a -> m <= y) -> Np.amin a = Some m.
Proof.
  destruct a as [|x t]; intros Hin Hle; [destruct Hin|].
  unfold Np.amin. f_equal. apply fold_min_spec.
  - destruct Hin as [->|Hin]; auto.
  - apply Hle. left. reflexivity.
  - intros y Hy. apply Hle. right. assumption.
Qed.

Lemma fold_max_spec : forall t x m,
  (m = x \/ In m t) -> x <= m -> (forall y, In y t -> y <= m) ->
  fold_left Rmax t x = m.
Proof.
  induction t as [|y t IH]; intros x m Hin Hx Ht; simpl.
  - destruct Hin as [->|[]]. reflexivity.
  - apply IH.
    + destruct Hin as [->|[->|Hin]].
      * left. rewrite Rmax_left; [reflexivity|]. apply Ht. left. reflexivity.
      * left. rewrite Rmax_right; [reflexivity|assumption].
      * right. assumption.
    + apply Rmax_lub; [assumption|]. apply Ht. left. reflexivity.
    + intros z Hz. apply Ht. right. assumption.
Qed.

Lemma amax_spec a m :
  In m a -> (forall y, In y a -> y <= m) -> Np.amax a = Some m.
Proof.
  destruct a as [|x t]; intros Hin Hle; [destruct Hin|].
  unfold Np.amax. f_equal. apply fold_max_spec.
  - destruct Hin as [->|Hin]; auto.
  - apply Hle. left. reflexivity.
  - intros y Hy. apply Hle. right. assumption.
Qed.

Lemma domain_center_spec a lo hi :
  In lo a -> In hi a -> (forall y, In y a -> lo <= y <= hi) ->
  domain_center a = Some (lo + 0.5 * (hi - lo)).
Proof.
  intros Hlo Hhi Hb. unfold domain_center.
  rewrite (amin_spec a lo), (amax_spec a hi); try assumption;
    try reflexivity; intros y Hy; apply Hb; assumption.
Qed.

Lemma argmin_first a c v :
  nth_error a c = Some v ->
  (forall j x, nth_error a j = Some x -> v <= x /\ ((j < c)%nat -> v < x)) ->
  Np.argmin a = Some c.
Proof.
  intros Hc Hmin.
  destruct (argmin_total a) as [c' Hc'].
  { intros ->. destruct c; discriminate. }
  destruct (argmin_spec _ _ Hc') as [v' [Hv' Hmin']].
  rewrite Hc'. f_equal.
  apply (first_least_unique a c' c v' v); assumption.
Qed.

Lemma radius_on_axis x0 y0 x y v :
  y = y0 -> v = Rabs (x - x0) -> radius x0 y0 x y = v.
Proof.
  intros -> ->. unfold radius. replace (y0 - y0) with 0 by lra.
  rewrite Rsqr_0, Rplus_0_r. apply sqrt_Rsqr_abs.
Qed.

Lemma demo_x0 : domain_center (xCell demo) = Some 1000.
Proof.
  rewrite (domain_center_spec _ (-23000) 25000).
  - f_equal. lra.
  - cbn [In xCell demo]. intuition lra.
  - cbn [In xCell demo]. intuition lra.
  - cbn [In xCell demo]. intuition lra.
Qed.

Lemma demo_y0 : domain_center (yCell demo) = Some 2000.
Proof.
  rewrite (domain_center_spec _ 2000 2000).
  - f_equal. lra.
  - cbn [In yCell demo]. intuition lra.
  - cbn [In yCell demo]. intuition lra.
  - cbn [In yCell demo]. intuition lra.
Qed.

Ltac abs_num :=
  match goal with
  | |- ?v = Rabs ?e =>
      first [ rewrite Rabs_pos_eq by lra; lra
            | rewrite Rabs_left1 by lra; lra ]
  end.

Lemma demo_center : centerCellIndex demo = Some 0%nat.
Proof.
  unfold centerCellIndex. rewrite demo_x0, demo_y0.
  unfold radii. cbn [xCell yCell demo Np.zip_with].
  apply (argmin_first _ 0%nat 0).
  - cbn [map nth_error]. f_equal.
    rewrite Rabs_pos_eq by apply radius_nonneg.
    apply radius_on_axis; [reflexivity|abs_num].
  - intros j x Hj. split; [|lia].
    apply nth_error_In in Hj. apply in_map_iff in Hj.
    destruct Hj as [y [<- _]]. apply Rabs_pos.
Qed.

Ltac reals_eq :=
  repeat match goal with
  | |- @eq (list _) (_ :: _) (_ :: _) => apply f_equal2
  | |- @eq (list _) [] [] => reflexivity
  | |- @eq R _ _ => lra
  end.

Lemma demo_recentered :
  putOriginOnACell demo = Some (translate demo (-1.0 * 1000) (-1.0 * 2000), demo_r).
Proof.
  unfold putOriginOnACell, shift. rewrite demo_center.
  cbn [nth_error xCell yCell demo fst snd].
  unfold radii.
  cbn [translate xCell yCell demo map Np.zip_with].
  do 2 f_equal. unfold demo_r.
  repeat (apply f_equal2;
          [apply radius_on_axis; [lra|abs_num]|]).
  reflexivity.
Qed.

Ltac decide_masks :=
  repeat first
    [ rewrite ltb_true by (unfold r0; lra)
    | rewrite ltb_false by (unfold r0; lra)
    | rewrite eqb_true by (unfold dome, r0, Rsqr; lra)
    | rewrite eqb_false by (unfold dome, r0, Rsqr; intros E; lra) ].

Ltac run_arrays :=
  cbn [fst snd translate thickness nVertLevels layerThicknessFractions
       uReconstructX waterThickness bedTopography sfcMassBal meltInput
       xCell yCell xEdge yEdge xVertex yVertex
       map Np.on_record0 Np.compress Np.mask_assign Np.mask_apply
       Np.assign_last Np.set_last removelast app nth_error
       set_layerThicknessFractions length Nat.eqb].

Lemma main_demo : main demo = Some demo_out.
Proof.
  unfold main. rewrite demo_recentered.
  unfold set_thickness, velo, set_uReconstructX, set_waterThickness,
    Np.mask_fill, Np.mask_fill_rows, Np.assign, Np.gtb, demo_r, demo, fill.
  do 4 (run_arrays; decide_masks).
  unfold demo_out. do 2 f_equal; unfold dome, r0, Rsqr; cbn [INR]; reals_eq.
Qed.

End Demo.

(** ** Shapes after a run *)

Section Shapes.

Lemma main_cells_defined g g' :
  main g = Some g' ->
  length (yCell g') = length (xCell g') /\
  length (xCell g') = length (xCell g) /\
  forall i, (i < length (xCell g'))%nat ->
            exists ri, cell_radius g' i = Some ri.
Proof.
  intros H.
  destruct (main_inv _ _ H) as (g1 & r & thk & ltf & v & u & w &
                                E1 & _ & _ & _ & _ & _ & ->).
  destruct (putOriginOnACell_inv _ _ _ E1)
    as (c & xc & yc & _ & _ & _ & Eg & Hr).
  destruct (zip_with_length _ _ _ _ Hr) as [_ Lxy].
  destruct (putOriginOnACell_length _ _ _ E1) as [_ Lx].
  cbn [xCell yCell]. repeat split; try assumption.
  intros i Hi. unfold cell_radius, cell_xy. cbn [xCell yCell].
  destruct (nth_error (xCell g1) i) as [x|] eqn:Ex;
    [|apply nth_error_None in Ex; lia].
  destruct (nth_error (yCell g1) i) as [y|] eqn:Ey;
    [|apply nth_error_None in Ey; lia].
  eexists. reflexivity.
Qed.

Lemma main_thickness_cell g g' i ti :
  main g = Some g' -> thickness0 g' i = Some ti ->
  exists ri, cell_radius g' i = Some ri.
Proof.
  intros H Ht.
  destruct (main_cells_defined _ _ H) as (_ & Lx & Hdef).
  apply Hdef. rewrite Lx.
  destruct (main_inv _ _ H) as (g1 & r & thk & ltf & v & u & w &
                                E1 & E2 & _ & _ & _ & _ & ->).
  destruct (putOriginOnACell_length _ _ _ E1) as [Lr _].
  destruct (set_thickness_inv _ _ _ E2)
    as (row & rest & row' & _ & -> & _ & Lrow' & _).
  unfold thickness0 in Ht. cbn [thickness nth_error] in Ht.
  rewrite <- Lr, <- Lrow'. apply nth_error_Some. congruence.
Qed.

Lemma final_levels_last levels v t :
  final_levels levels v t <> [] /\
  last (final_levels levels v t) 0 = if Np.eqb t 0.0 then 0.0 else v.
Proof.
  unfold final_levels. destruct (Np.eqb t 0.0).
  - rewrite map_app. cbn [map]. split; [|apply last_last].
    intros E. apply (f_equal (@length R)) in E.
    rewrite length_app in E. simpl in E. lia.
  - split; [|apply last_last].
    intros E. apply (f_equal (@length R)) in E.
    rewrite length_app in E. simpl in E. lia.
Qed.

Lemma final_levels_below levels v t k :
  Np.eqb t 0.0 = false -> (S k < length levels)%nat ->
  nth_error (final_levels levels v t) k = nth_error levels k.
Proof.
  intros Et Hk. unfold final_levels. rewrite Et.
  apply (set_last_below levels v); [|assumption].
  destruct levels; [simpl in Hk; lia|reflexivity].
Qed.

End Shapes.

(** ** The recentering *)


(** C7, as it holds.  The recentering adds one shift to every coordinate:
    the shift is the negation of the coordinates of the chosen cell, and
    every cell, edge and vertex coordinate is its old value plus the
    shift.  The script leaves these coordinates as they are. *)
Theorem recentering_is_translation (g g1 : Dataset) (r : list R) :
  putOriginOnACell g = Some (g1, r) ->
  exists c xc yc xShift yShift,
    centerCellIndex g = Some c /\ cell_xy g c = Some (xc, yc) /\
    xShift = - xc /\ yShift = - yc /\
    (forall p, point_x g1 p = option_map (fun x => x + xShift) (point_x g p))
    /\
    (forall p, point_y g1 p = option_map (fun y => y + yShift) (point_y g p))
    /\
    (forall g' p, main g = Some g' ->
        point_x g' p = point_x g1 p /\ point_y g' p = point_y g1 p).
Proof.
  intros E1.
  destruct (putOriginOnACell_inv _ _ _ E1)
    as (c & xc & yc & Hc & Hxc & Hyc & Eg & _).
  assert (Hx : forall p, point_x g1 p
                         = option_map (fun x => x + -1.0 * xc) (point_x g p)).
  { intros [i|i|i]; rewrite Eg; cbn [point_x xCell xEdge xVertex translate];
      apply nth_error_map. }
  assert (Hy : forall p, point_y g1 p
                         = option_map (fun y => y + -1.0 * yc) (point_y g p)).
  { intros [i|i|i]; rewrite Eg; cbn [point_y yCell yEdge yVertex translate];
      apply nth_error_map. }
  exists c, xc, yc, (-1.0 * xc), (-1.0 * yc).
  split; [exact Hc|]. split.
  { unfold cell_xy. rewrite Hxc, Hyc. reflexivity. }
  split; [lra|]. split; [lra|]. split; [exact Hx|]. split; [exact Hy|].
  intros g' p H. apply (main_coordinates _ _ _ _ H E1).
Qed.

(** ** The ice thickness *)

Section Dome.

Lemma dome_decreasing a b : 0 <= a -> a < b -> dome b < dome a.
Proof.
  intros Ha Hab. unfold dome, r0, Rsqr.
  assert (a / 25000.0 < b / 25000.0) by lra.
  assert (0 <= a / 25000.0) by lra.
  nra.
Qed.

Lemma dome_22500 : dome 22500 = 95.
Proof. unfold dome, r0, Rsqr. lra. Qed.

Lemma dome_r0 : dome r0 = 0.
Proof. unfold dome, r0, Rsqr. lra. Qed.

Lemma final_thickness_inside ri :
  ri <= 22500 -> final_thickness ri = dome ri.
Proof.
  intros H. unfold final_thickness, Np.gtb. rewrite ltb_false by lra.
  reflexivity.
Qed.

Lemma final_thickness_outside ri :
  22500 < ri -> final_thickness ri = 0.
Proof.
  intros H. unfold final_thickness, Np.gtb. rewrite ltb_true by lra. lra.
Qed.

Lemma cell_radius_nonneg g i ri : cell_radius g i = Some ri -> 0 <= ri.
Proof.
  unfold cell_radius. destruct (cell_xy g i); [|discriminate].
  intros H. injection H as <-. apply radius_nonneg.
Qed.

End Dome.

(** C2, as it holds.  The thickness does not increase with the radius as
    long as the smaller radius is at most 22500: of two cells with radii
    r1 < r2 and r1 <= 22500, the cell at r1 has at least the thickness of
    the cell at r2, and a greater one when r2 is beyond 22500.  At r = r0
    the thickness is 0, the value of the formula there. *)
Theorem thickness_nonincreasing_to_22500
  (g g' : Dataset) (i j : nat) (ri rj ti tj : R) :
  main g = Some g' ->
  cell_radius g' i = Some ri -> cell_radius g' j = Some rj ->
  thickness0 g' i = Some ti -> thickness0 g' j = Some tj ->
  ri < rj -> ri <= 22500 ->
  tj <= ti /\ (22500 < rj -> tj < ti) /\
  (rj = r0 -> tj = 0 /\ dome rj = 0).
Proof.
  intros H Hri Hrj Hti Htj Hlt Hin.
  destruct (main_cell _ _ _ _ H Hri) as [Ti _].
  destruct (main_cell _ _ _ _ H Hrj) as [Tj _].
  rewrite Ti in Hti. injection Hti as <-.
  rewrite Tj in Htj. injection Htj as <-.
  pose proof (cell_radius_nonneg _ _ _ Hri) as Hpos.
  rewrite (final_thickness_inside ri Hin).
  assert (Hdi : 95 <= dome ri).
  { destruct (Req_dec ri 22500) as [->|Hne].
    - rewrite dome_22500. lra.
    - rewrite <- dome_22500. left. apply dome_decreasing; lra. }
  split; [|split].
  - destruct (Rle_dec rj 22500) as [Hj|Hj].
    + rewrite (final_thickness_inside rj Hj).
      left. apply dome_decreasing; assumption.
    + rewrite final_thickness_outside by lra. lra.
  - intros Hout. rewrite final_thickness_outside by lra. lra.
  - intros ->. split; [|apply dome_r0].
    apply final_thickness_outside. unfold r0. lra.
Qed.

(** C3.  Beyond 22500 the thickness is 0, also where the formula of line
    61 was written first. *)
Theorem thickness_zero_beyond_22500 (g g' : Dataset) (i : nat) (ri : R) :
  main g = Some g' -> cell_radius g' i = Some ri -> 22500 < ri ->
  thickness0 g' i = Some 0.
Proof.
  intros H Hri Hout.
  destruct (main_cell _ _ _ _ H Hri) as [Ti _].
  rewrite Ti, (final_thickness_outside ri Hout). reflexivity.
Qed.

(** ** The velocity *)

(** C4, as it holds.  At the last level the velocity is
    (r - 5000) * 100 / 3.14e7 / 22500 where r >= 5000 and there is ice, and
    0 where r < 5000 or the thickness is 0.  The constant is the literal
    3.14e7. *)
Theorem top_velocity (g g' : Dataset) (i : nat) (ri ti : R) :
  main g = Some g' ->
  cell_radius g' i = Some ri -> thickness0 g' i = Some ti ->
  (5000 <= ri -> ti <> 0 ->
   u_top g' i = Some ((ri - 5000) * 100 / 3.14e7 / 22500)) /\
  (ri < 5000 \/ ti = 0 -> u_top g' i = Some 0).
Proof.
  intros H Hri Hti.
  destruct (main_cell _ _ _ _ H Hri) as (Ti & (levels & _ & _ & Hu) & _).
  rewrite Ti in Hti. injection Hti as <-.
  destruct (final_levels_last levels (velo_at ri) (final_thickness ri))
    as [Hne Hlast].
  assert (Htop : u_top g' i
                 = Some (if Np.eqb (final_thickness ri) 0.0 then 0.0
                         else velo_at ri)).
  { unfold u_top. rewrite Hu, <- Hlast.
    destruct (final_levels levels (velo_at ri) (final_thickness ri));
      [contradiction|reflexivity]. }
  rewrite Htop. split.
  - intros Hr Ht. rewrite eqb_false by lra.
    unfold velo_at. rewrite ltb_false by lra. f_equal. lra.
  - intros [Hr|Ht].
    + unfold velo_at. rewrite ltb_true by lra.
      destruct (Np.eqb (final_thickness ri) 0.0); f_equal; lra.
    + rewrite eqb_true by lra. f_equal. lra.
Qed.

(** C5, as it holds.  Under ice the levels below the last one keep the
    values of the input file. *)
Theorem lower_levels_kept_under_ice
  (g g' : Dataset) (i k : nat) (levels : list R) (ti : R) :
  main g = Some g' ->
  u_levels g 0 i = Some levels -> (S k < length levels)%nat ->
  thickness0 g' i = Some ti -> ti <> 0 ->
  u_at g' 0 i k = u_at g 0 i k.
Proof.
  intros H Hl Hk Hti Hice.
  destruct (main_thickness_cell _ _ _ _ H Hti) as [ri Hri].
  destruct (main_cell _ _ _ _ H Hri) as (Ti & (levels' & Hl' & _ & Hu) & _).
  rewrite Hl in Hl'. injection Hl' as <-.
  rewrite Ti in Hti. injection Hti as <-.
  unfold u_at. rewrite Hu, Hl.
  apply final_levels_below; [|assumption].
  apply eqb_false. lra.
Qed.

(** ** The water layer and the vertical layers *)

(** C6.  The water thickness of record 0 is 0 at every cell, whatever its
    radius. *)
Theorem waterThickness_zero (g g' : Dataset) :
  main g = Some g' ->
  (forall i, (i < length (xCell g'))%nat -> waterThickness0 g' i = Some 0) /\
  (forall i ri, cell_radius g' i = Some ri ->
                waterThickness0 g' i = Some ((ri - 5000) / r0 * 0.5 * 0) /\
                waterThickness0 g' i = Some 0).
Proof.
  intros H.
  assert (Hcell : forall i ri, cell_radius g' i = Some ri ->
            waterThickness0 g' i = Some ((ri - 5000) / r0 * 0.5 * 0) /\
            waterThickness0 g' i = Some 0).
  { intros i ri Hri.
    destruct (main_cell _ _ _ _ H Hri) as (_ & _ & Hw).
    rewrite Hw. split; f_equal; lra. }
  split; [|exact Hcell].
  intros i Hi.
  destruct (main_cells_defined _ _ H) as (_ & _ & Hdef).
  destruct (Hdef i Hi) as [ri Hri].
  apply (Hcell i ri Hri).
Qed.

Lemma sum_constant (c : R) (a : list R) :
  Np.sum (map (fun _ => c) a) = INR (length a) * c.
Proof.
  induction a as [|x a IH].
  - simpl. lra.
  - cbn [map Np.sum fold_right length]. fold (Np.sum (map (fun _ => c) a)).
    rewrite IH, S_INR. lra.
Qed.

Lemma set_layerThicknessFractions_inv n a l :
  set_layerThicknessFractions n a = Some l ->
  n <> O /\ l = map (fun _ => 1.0 / INR n) a.
Proof.
  destruct n as [|n]; [discriminate|].
  intros H. injection H as <-. split; [discriminate|reflexivity].
Qed.

(** C8.  Every layer thickness fraction is 1 / nVertLevels, and over the
    nVertLevels levels they sum to 1. *)
Theorem layerThicknessFractions_uniform (g g' : Dataset) :
  main g = Some g' ->
  (1 <= nVertLevels g)%nat /\
  length (layerThicknessFractions g') = length (layerThicknessFractions g) /\
  (forall k f, nth_error (layerThicknessFractions g') k = Some f ->
               f = 1 / INR (nVertLevels g)) /\
  (length (layerThicknessFractions g) = nVertLevels g ->
   Np.sum (layerThicknessFractions g') = 1).
Proof.
  intros H.
  destruct (main_inv _ _ H) as (g1 & r & thk & ltf & v & u & w &
                                _ & _ & E3 & _ & _ & _ & ->).
  cbn [layerThicknessFractions].
  destruct (set_layerThicknessFractions_inv _ _ _ E3) as [Hpos ->].
  assert (Hn : INR (nVertLevels g) <> 0) by (apply not_0_INR; exact Hpos).
  split; [lia|]. split; [apply length_map|]. split.
  - intros k f Hk. rewrite nth_error_map in Hk.
    destruct (nth_error (layerThicknessFractions g) k); [|discriminate].
    injection Hk as <-. unfold Rdiv. lra.
  - intros Hlen. rewrite sum_constant, Hlen.
    replace (1.0 / INR (nVertLevels g)) with (/ INR (nVertLevels g))
      by (unfold Rdiv; lra).
    apply Rinv_r. exact Hn.
Qed.

(** ** The properties on the mesh [demo] *)

Lemma demo_out_radius i : cell_radius demo_out i = nth_error demo_r i.
Proof.
  unfold cell_radius, cell_xy, demo_r.
  do 6 (destruct i as [|i];
        [cbn [nth_error xCell yCell demo_out fst snd]; f_equal;
         apply radius_on_axis;
         [lra
         |first [rewrite Rabs_pos_eq by lra; lra
                |rewrite Rabs_left1 by lra; lra]]
        |]).
  cbn [nth_error xCell yCell demo_out]. destruct i; reflexivity.
Qed.

Lemma PI_above_3_14 : 3.14 < PI.
Proof.
  pose proof (PI_2_3_7_ineq 1) as [H _].
  unfold sum_f_R0, tg_alt, PI_2_3_7_tg, Ratan_seq in H. simpl in H.
  lra.
Qed.

Lemma demo_well_shaped : well_shaped demo.
Proof.
  constructor.
  - discriminate.
  - reflexivity.
  - discriminate.
  - eexists _, _. split; reflexivity.
  - eexists _, _. split; [reflexivity|]. split; [reflexivity|].
    repeat constructor; discriminate.
  - eexists _, _. split; reflexivity.
Qed.


Lemma recentering_is_translation_demo :
  point_x (translate demo (-1.0 * 1000) (-1.0 * 2000)) (Edge 1)
  = Some (5000 + - 1000) /\
  point_y (translate demo (-1.0 * 1000) (-1.0 * 2000)) (Vertex 0)
  = Some (2500 + - 2000).
Proof.
  destruct (recentering_is_translation demo _ demo_r demo_recentered)
    as (c & xc & yc & xShift & yShift & Hc & Hxy & -> & -> & Hx & Hy & _).
  rewrite demo_center in Hc. injection Hc as <-.
  unfold cell_xy in Hxy. cbn [nth_error xCell yCell demo] in Hxy.
  injection Hxy as <- <-.
  rewrite Hx, Hy. split; reflexivity.
Defined.

(** Between 22500 and r0 the thickness is flat: the cells 3 and 4 of
    [demo] are 23000 and 24000 away from the origin, both within r0, and
    both have thickness 0. *)
Lemma thickness_flat_beyond_22500 :
  ~ (forall (g g' : Dataset) (i j : nat) (ri rj ti tj : R),
        main g = Some g' ->
        cell_radius g' i = Some ri -> cell_radius g' j = Some rj ->
        thickness0 g' i = Some ti -> thickness0 g' j = Some tj ->
        0 <= ri -> ri < rj -> rj < r0 ->
        tj < ti).
Proof.
  intros C.
  assert (F : 0 < 0).
  { apply (C demo demo_out 3%nat 4%nat 23000 24000 0 0 main_demo).
    - rewrite demo_out_radius. reflexivity.
    - rewrite demo_out_radius. reflexivity.
    - reflexivity.
    - reflexivity.
    - lra.
    - lra.
    - unfold r0. lra. }
  lra.
Qed.

Lemma thickness_nonincreasing_to_22500_demo :
  95 <= 420 /\ (22500 < 22500 -> 95 < 420) /\
  (22500 = r0 -> 95 = 0 /\ dome 22500 = 0).
Proof.
  apply (thickness_nonincreasing_to_22500
           demo demo_out 1 2 10000 22500 420 95).
  - exact main_demo.
  - rewrite demo_out_radius. reflexivity.
  - rewrite demo_out_radius. reflexivity.
  - reflexivity.
  - reflexivity.
  - lra.
  - lra.
Defined.

Lemma thickness_zero_beyond_22500_demo : thickness0 demo_out 3 = Some 0.
Proof.
  apply (thickness_zero_beyond_22500 demo demo_out 3 23000).
  - exact main_demo.
  - rewrite demo_out_radius. reflexivity.
  - lra.
Defined.

(** C4, as stated, fails: cell 1 of [demo] is 10000 away from the origin
    and under ice, and its velocity is 5000 * 100 / 3.14e7 / 22500; with
    pi * 1e7 for 3.14e7 the value is another one, pi being above 3.14. *)
Lemma top_velocity_not_with_pi :
  ~ (forall (g g' : Dataset) (i : nat) (ri ti : R),
        main g = Some g' ->
        cell_radius g' i = Some ri -> thickness0 g' i = Some ti ->
        (5000 <= ri -> ti <> 0 ->
         u_top g' i = Some ((ri - 5000) * 100 / (PI * 1e7) / 22500)) /\
        (ri < 5000 \/ ti = 0 -> u_top g' i = Some 0)).
Proof.
  intros C.
  destruct (C demo demo_out 1%nat 10000 420 main_demo) as [V _].
  - rewrite demo_out_radius. reflexivity.
  - reflexivity.
  - assert (Hr : 5000 <= 10000) by lra.
    assert (Ht : 420 <> 0) by lra.
    specialize (V Hr Ht).
    unfold u_top, u_levels in V.
    cbn [uReconstructX demo_out nth_error last] in V.
    injection V as V.
    pose proof PI_above_3_14 as Hpi.
    assert (Hx : 0 < PI * 1e7) by lra.
    assert (Hinv : / (PI * 1e7) = / 31400000).
    { unfold Rdiv in V. lra. }
    apply (f_equal Rinv) in Hinv.
    rewrite !Rinv_inv in Hinv. lra.
Qed.

Lemma top_velocity_demo :
  (5000 <= 10000 -> 420 <> 0 ->
   u_top demo_out 1 = Some ((10000 - 5000) * 100 / 3.14e7 / 22500)) /\
  (10000 < 5000 \/ 420 = 0 -> u_top demo_out 1 = Some 0).
Proof.
  apply (top_velocity demo demo_out 1 10000 420).
  - exact main_demo.
  - rewrite demo_out_radius. reflexivity.
  - reflexivity.
Defined.

(** C5, as stated, fails: cell 3 of [demo] has no ice at the end, and its
    level 0, which is not the last one, goes from 1 to 0. *)
Lemma iceless_cells_lose_all_levels :
  ~ (forall (g g' : Dataset) (i k : nat) (levels : list R),
        main g = Some g' ->
        u_levels g 0 i = Some levels -> (S k < length levels)%nat ->
        u_at g' 0 i k = u_at g 0 i k).
Proof.
  intros C.
  assert (F : u_at demo_out 0 3 0 = u_at demo 0 3 0).
  { apply (C demo demo_out 3%nat 0%nat [1; 1] main_demo).
    - reflexivity.
    - simpl. lia. }
  unfold u_at, u_levels in F.
  cbn [uReconstructX demo demo_out nth_error] in F.
  injection F as F. lra.
Qed.

Lemma lower_levels_kept_under_ice_demo :
  u_at demo_out 0 1 0 = u_at demo 0 1 0.
Proof.
  apply (lower_levels_kept_under_ice demo demo_out 1 0 [1; 1] 420).
  - exact main_demo.
  - reflexivity.
  - simpl. lia.
  - reflexivity.
  - lra.
Defined.

Lemma waterThickness_zero_demo :
  waterThickness0 demo_out 0 = Some 0 /\ waterThickness0 demo_out 4 = Some 0.
Proof.
  destruct (waterThickness_zero demo demo_out main_demo) as [H _].
  split; apply H; simpl; lia.
Defined.

Lemma layerThicknessFractions_uniform_demo :
  Np.sum (layerThicknessFractions demo_out) = 1.
Proof.
  destruct (layerThicknessFractions_uniform demo demo_out main_demo)
    as (_ & _ & _ & H).
  apply H. reflexivity.
Defined.

(** * Further properties of the script *)

(** ** The center of the domain and the distances *)

Lemma fold_min_sound : forall t x,
  (fold_left Rmin t x = x \/ In (fold_left Rmin t x) t) /\
  fold_left Rmin t x <= x /\
  (forall y, In y t -> fold_left Rmin t x <= y).
Proof.
  induction t as [|z t IH]; intros x; simpl.
  - split; [left; reflexivity|]. split; [lra|]. intros y [].
  - destruct (IH (Rmin x z)) as (Hin & Hle & Hall).
    pose proof (Rbasic_fun.Rmin_l x z) as Hl.
    pose proof (Rbasic_fun.Rmin_r x z) as Hr.
    split; [|split].
    + destruct Hin as [E|Hin]; [|right; right; exact Hin].
      rewrite E. unfold Rmin. destruct (Rle_dec x z); [left|right; left];
        reflexivity.
    + lra.
    + intros y [<-|Hy]; [lra|apply Hall; exact Hy].
Qed.

Lemma fold_max_sound : forall t x,
  (fold_left Rmax t x = x \/ In (fold_left Rmax t x) t) /\
  x <= fold_left Rmax t x /\
  (forall y, In y t -> y <= fold_left Rmax t x).
Proof.
  induction t as [|z t IH]; intros x; simpl.
  - split; [left; reflexivity|]. split; [lra|]. intros y [].
  - destruct (IH (Rmax x z)) as (Hin & Hle & Hall).
    pose proof (Rbasic_fun.Rmax_l x z) as Hl.
    pose proof (Rbasic_fun.Rmax_r x z) as Hr.
    split; [|split].
    + destruct Hin as [E|Hin]; [|right; right; exact Hin].
      rewrite E. unfold Rmax. destruct (Rle_dec x z); [right; left|left];
        reflexivity.
    + lra.
    + intros y [<-|Hy]; [lra|apply Hall; exact Hy].
Qed.

(** X1.  The center of lines 35-36 is lo + 0.5 * (hi - lo) for the least
    entry lo and the greatest entry hi of the array.  An empty array has
    none. *)
Theorem domain_center_midpoint (a : list R) :
  match domain_center a with
  | None => a = []
  | Some c =>
      exists lo hi,
        In lo a /\ In hi a /\ (forall y, In y a -> lo <= y <= hi) /\
        c = lo + 0.5 * (hi - lo)
  end.
Proof.
  destruct a as [|x t]; [reflexivity|].
  unfold domain_center, Np.amin, Np.amax.
  destruct (fold_min_sound t x) as (Imin & Lmin & Amin).
  destruct (fold_max_sound t x) as (Imax & Lmax & Amax).
  exists (fold_left Rmin t x), (fold_left Rmax t x).
  split; [destruct Imin as [->|H]; [left; reflexivity|right; exact H]|].
  split; [destruct Imax as [->|H]; [left; reflexivity|right; exact H]|].
  split; [|reflexivity].
  intros y [<-|Hy]; [lra|].
  specialize (Amin y Hy). specialize (Amax y Hy). lra.
Qed.

Lemma radius_from_origin x y : radius 0.0 0.0 x y = sqrt (x * x + y * y).
Proof. unfold radius, Rsqr. f_equal. lra. Qed.

Lemma center_radius_zero g g1 r :
  putOriginOnACell g = Some (g1, r) ->
  exists c, centerCellIndex g = Some c /\ nth_error r c = Some 0.
Proof.
  intros E1.
  destruct (putOriginOnACell_inv _ _ _ E1)
    as (c & xc & yc & Hc & Hxc & Hyc & Eg & Hr).
  exists c. split; [exact Hc|].
  rewrite (radii_nth _ _ _ _ _ Hr c), Eg. cbn [xCell yCell translate].
  rewrite !nth_error_map, Hxc, Hyc. cbn [option_map]. f_equal.
  rewrite radius_from_origin.
  replace ((xc + -1.0 * xc) * (xc + -1.0 * xc)
           + (yc + -1.0 * yc) * (yc + -1.0 * yc)) with 0 by lra.
  apply sqrt_0.
Qed.

(** X2.  After the recentering the distance array has one entry per cell,
    the entry of a cell at (x, y) is sqrt (x * x + y * y), no entry is
    negative, and the entry of the chosen cell is 0. *)
Theorem recentered_radii (g g1 : Dataset) (r : list R) :
  putOriginOnACell g = Some (g1, r) ->
  length r = length (xCell g1) /\
  (forall i x y, cell_xy g1 i = Some (x, y) ->
                 nth_error r i = Some (sqrt (x * x + y * y))) /\
  (forall i ri, nth_error r i = Some ri -> 0 <= ri) /\
  (exists c, centerCellIndex g = Some c /\ nth_error r c = Some 0).
Proof.
  intros E1.
  destruct (putOriginOnACell_inv _ _ _ E1)
    as (c & xc & yc & _ & _ & _ & _ & Hr).
  destruct (zip_with_length _ _ _ _ Hr) as [Lr _].
  split; [exact Lr|]. split; [|split].
  - intros i x y Hxy. rewrite (putOriginOnACell_radius _ _ _ E1 i).
    unfold cell_radius. rewrite Hxy. cbn [fst snd]. f_equal.
    apply radius_from_origin.
  - intros i ri Hi. rewrite (putOriginOnACell_radius _ _ _ E1 i) in Hi.
    apply (cell_radius_nonneg _ _ _ Hi).
  - apply (center_radius_zero _ _ _ E1).
Qed.

(** ** When the script raises *)

(** X3.  The script reaches its end on every well-shaped grid file, and it
    raises on a mesh without cells and on a grid file without vertical
    levels. *)
Theorem main_completes (g : Dataset) :
  (well_shaped g -> exists g', main g = Some g') /\
  (xCell g = [] -> main g = None) /\
  (nVertLevels g = O -> main g = None).
Proof.
  split; [apply main_total|]. split.
  - intros E. unfold main, putOriginOnACell, shift, centerCellIndex.
    rewrite E. reflexivity.
  - intros E. destruct (main g) as [g'|] eqn:H; [|reflexivity].
    destruct (main_inv _ _ H) as (g1 & r & thk & ltf & v & u & w &
                                  _ & _ & E3 & _).
    rewrite E in E3. discriminate.
Qed.

Lemma main_completes_demo : exists g', main demo = Some g'.
Proof.
  destruct (main_completes demo) as [H _].
  apply H. exact demo_well_shaped.
Defined.

Lemma recentered_radii_demo :
  nth_error demo_r 1
  = Some (sqrt ((11000 + -1.0 * 1000) * (11000 + -1.0 * 1000)
                + (2000 + -1.0 * 2000) * (2000 + -1.0 * 2000))).
Proof.
  destruct (recentered_radii demo _ demo_r demo_recentered)
    as (_ & H & _ & _).
  apply (H 1%nat). reflexivity.
Defined.

(** ** Running the script again *)

Section Again.




Lemma set_uReconstructX_length u thk v u' :
  set_uReconstructX u thk v = Some u' ->
  exists cells' rest, u' = cells' :: rest /\ length cells' = length v.
Proof.
  unfold set_uReconstructX. intros H.
  destruct (Np.on_record0 _ u) as [u1|] eqn:E1; [|discriminate].
  destruct (nth_error thk 0) as [thk0|] eqn:Et; [|discriminate].
  destruct (on_record0_inv _ _ _ E1)
    as (cells & rest & cells1 & -> & F1 & ->).
  destruct (on_record0_inv _ _ _ H)
    as (cells1' & rest' & cells2 & E & F2 & ->).
  injection E as <- <-.
  destruct (assign_last_length _ _ _ F1) as [L1 L1'].
  unfold Np.mask_fill_rows in F2.
  destruct (mask_apply_length _ _ _ _ F2) as [L2 _].
  exists cells2, rest. split; [reflexivity|congruence].
Qed.



Lemma fill_fill a b m : fill a (fill b m) = fill a m.
Proof.
  unfold fill. rewrite map_map. apply map_ext. intros row.
  rewrite map_map. reflexivity.
Qed.

End Again.




(** ** The fields as functions of the radius *)

Lemma main_u_top g g' i ri :
  main g = Some g' -> cell_radius g' i = Some ri ->
  u_top g' i
  = Some (if Np.eqb (final_thickness ri) 0.0 then 0.0 else velo_at ri).
Proof.
  intros H Hri.
  destruct (main_cell _ _ _ _ H Hri) as (_ & (levels & _ & _ & Hu) & _).
  destruct (final_levels_last levels (velo_at ri) (final_thickness ri))
    as [Hne Hlast].
  unfold u_top. rewrite Hu, <- Hlast.
  destruct (final_levels levels (velo_at ri) (final_thickness ri));
    [contradiction|reflexivity].
Qed.

Lemma final_thickness_range ri :
  0 <= ri ->
  (22500 < ri /\ final_thickness ri = 0) \/
  (ri <= 22500 /\ final_thickness ri = dome ri /\ 95 <= dome ri <= 500).
Proof.
  intros Hpos. destruct (Rlt_dec 22500 ri) as [Hout|Hin].
  - left. split; [exact Hout|]. apply final_thickness_outside. exact Hout.
  - right. assert (Hle : ri <= 22500) by lra.
    split; [exact Hle|]. split; [apply final_thickness_inside; exact Hle|].
    assert (H0 : dome 0 = 500) by (unfold dome, r0, Rsqr; lra).
    split.
    + destruct (Req_dec ri 22500) as [->|Hne].
      * rewrite dome_22500. lra.
      * rewrite <- dome_22500. left. apply dome_decreasing; lra.
    + destruct (Req_dec ri 0) as [->|Hne].
      * lra.
      * rewrite <- H0. left. apply dome_decreasing; lra.
Qed.

(** X7.  The thickness of record 0 is 0 or between 94.99 and 500 at every
    cell, so the ice ends in a step, and it is 500 at the cell of the
    origin. *)
Theorem thickness_range (g g' : Dataset) :
  main g = Some g' ->
  (forall i t, thickness0 g' i = Some t -> t = 0 \/ 94.99 <= t <= 500) /\
  (exists c, centerCellIndex g = Some c /\ thickness0 g' c = Some 500).
Proof.
  intros H. split.
  - intros i t Ht.
    destruct (main_thickness_cell _ _ _ _ H Ht) as [ri Hri].
    destruct (main_cell _ _ _ _ H Hri) as [Ti _].
    rewrite Ti in Ht. injection Ht as <-.
    destruct (final_thickness_range ri (cell_radius_nonneg _ _ _ Hri))
      as [[_ ->]|(_ & -> & Hd)]; [left; reflexivity|right; lra].
  - destruct (main_inv _ _ H) as (g1 & r & thk & ltf & v & u & w &
                                  E1 & _ & _ & _ & _ & _ & Eg').
    destruct (center_radius_zero _ _ _ E1) as (c & Hc & Hrc).
    exists c. split; [exact Hc|].
    assert (Hri : cell_radius g' c = Some 0).
    { rewrite <- Hrc, (putOriginOnACell_radius _ _ _ E1 c), Eg'.
      reflexivity. }
    destruct (main_cell _ _ _ _ H Hri) as [Ti _].
    rewrite Ti, final_thickness_inside by lra.
    f_equal. unfold dome, r0, Rsqr. lra.
Qed.

Lemma thickness_range_demo :
  420 = 0 \/ 94.99 <= 420 <= 500.
Proof.
  destruct (thickness_range demo demo_out main_demo) as [H _].
  apply (H 1%nat). reflexivity.
Defined.

(** X8.  The thickness, the velocity at the last level and the water
    thickness of a cell depend on its radius alone: two cells at one radius
    have the same values, in one run or in two runs on different grid
    files, whatever these fields held before. *)
Theorem fields_by_radius (g g' h h' : Dataset) (i j : nat) (ri : R) :
  main g = Some g' -> main h = Some h' ->
  cell_radius g' i = Some ri -> cell_radius h' j = Some ri ->
  thickness0 g' i = thickness0 h' j /\
  u_top g' i = u_top h' j /\
  waterThickness0 g' i = waterThickness0 h' j.
Proof.
  intros Hg Hh Hi Hj.
  destruct (main_cell _ _ _ _ Hg Hi) as (Ti & _ & Wi).
  destruct (main_cell _ _ _ _ Hh Hj) as (Tj & _ & Wj).
  rewrite Ti, Tj, Wi, Wj.
  rewrite (main_u_top _ _ _ _ Hg Hi), (main_u_top _ _ _ _ Hh Hj).
  repeat split.
Qed.

Lemma fields_by_radius_demo :
  thickness0 demo_out 4 = thickness0 demo_out 5 /\
  u_top demo_out 4 = u_top demo_out 5 /\
  waterThickness0 demo_out 4 = waterThickness0 demo_out 5.
Proof.
  apply (fields_by_radius demo demo_out demo demo_out 4 5 24000).
  - exact main_demo.
  - exact main_demo.
  - rewrite demo_out_radius. reflexivity.
  - rewrite demo_out_radius. reflexivity.
Defined.

(** X9.  The velocity at the last level is never negative and at most
    17500 * 100 / 3.14e7 / 22500, the value at the radius 22500; it is not
    0 exactly at the cells with 5000 < r <= 22500. *)
Theorem top_velocity_range (g g' : Dataset) (i : nat) (ri : R) :
  main g = Some g' -> cell_radius g' i = Some ri ->
  exists u,
    u_top g' i = Some u /\
    0 <= u <= 17500 * 100 / 3.14e7 / 22500 /\
    (u <> 0 <-> 5000 < ri <= 22500).
Proof.
  intros H Hri.
  rewrite (main_u_top _ _ _ _ H Hri).
  eexists. split; [reflexivity|].
  destruct (final_thickness_range ri (cell_radius_nonneg _ _ _ Hri))
    as [[Hout ->]|(Hin & -> & Hd)].
  - rewrite eqb_true by lra. split; [lra|]. split; intros; lra.
  - rewrite eqb_false by lra. unfold velo_at.
    destruct (Rlt_dec ri 5000) as [Hlow|Hhigh].
    + rewrite ltb_true by lra. split; [lra|]. split; intros; lra.
    + rewrite ltb_false by lra. split; [lra|]. split; intros; lra.
Qed.

Lemma top_velocity_range_demo :
  exists u,
    u_top demo_out 2 = Some u /\
    0 <= u <= 17500 * 100 / 3.14e7 / 22500 /\
    (u <> 0 <-> 5000 < 22500 <= 22500).
Proof.
  apply (top_velocity_range demo demo_out 2 22500).
  - exact main_demo.
  - rewrite demo_out_radius. reflexivity.
Defined.

(** X10.  Under the ice the velocity at the last level does not decrease
    with the radius. *)
Theorem top_velocity_monotone
  (g g' : Dataset) (i j : nat) (ri rj ui uj : R) :
  main g = Some g' ->
  cell_radius g' i = Some ri -> cell_radius g' j = Some rj ->
  u_top g' i = Some ui -> u_top g' j = Some uj ->
  ri <= rj -> rj <= 22500 ->
  ui <= uj.
Proof.
  intros H Hri Hrj Hui Huj Hle Hin.
  rewrite (main_u_top _ _ _ _ H Hri) in Hui. injection Hui as <-.
  rewrite (main_u_top _ _ _ _ H Hrj) in Huj. injection Huj as <-.
  pose proof (cell_radius_nonneg _ _ _ Hri) as Pi.
  pose proof (cell_radius_nonneg _ _ _ Hrj) as Pj.
  destruct (final_thickness_range ri Pi) as [[Ho _]|(_ & -> & Hdi)];
    [lra|].
  destruct (final_thickness_range rj Pj) as [[Ho _]|(_ & -> & Hdj)];
    [lra|].
  rewrite !eqb_false by lra. unfold velo_at.
  destruct (Rlt_dec ri 5000) as [Li|Li], (Rlt_dec rj 5000) as [Lj|Lj].
  - rewrite !ltb_true by lra. lra.
  - rewrite ltb_true, ltb_false by lra. lra.
  - lra.
  - rewrite !ltb_false by lra. lra.
Qed.

Lemma top_velocity_monotone_demo :
  5000 * 100 / 31400000 / 22500 <= 17500 * 100 / 31400000 / 22500.
Proof.
  apply (top_velocity_monotone demo demo_out 1 2 10000 22500).
  - exact main_demo.
  - rewrite demo_out_radius. reflexivity.
  - rewrite demo_out_radius. reflexivity.
  - reflexivity.
  - reflexivity.
  - lra.
  - lra.
Defined.

(** X11.  At a cell without ice every level of record 0 of the velocity
    is 0, and the cell keeps its number of levels. *)
Theorem iceless_levels_zero (g g' : Dataset) (i : nat) :
  main g = Some g' -> thickness0 g' i = Some 0 ->
  exists levels levels',
    u_levels g 0 i = Some levels /\ u_levels g' 0 i = Some levels' /\
    length levels' = length levels /\
    (forall k uk, nth_error levels' k = Some uk -> uk = 0).
Proof.
  intros H Ht.
  destruct (main_thickness_cell _ _ _ _ H Ht) as [ri Hri].
  destruct (main_cell _ _ _ _ H Hri) as (Ti & (levels & Hl & Hne & Hu) & _).
  rewrite Ti in Ht. injection Ht as Ht.
  exists levels, (final_levels levels (velo_at ri) (final_thickness ri)).
  split; [exact Hl|]. split; [exact Hu|].
  unfold final_levels. rewrite eqb_true by lra. split.
  - rewrite length_map.
    destruct (set_last_length levels (velo_at ri)
                (removelast levels ++ [velo_at ri])) as [_ L];
      [|exact L].
    destruct levels; [contradiction|reflexivity].
  - intros k uk Hk. rewrite nth_error_map in Hk.
    destruct (nth_error _ k); [|discriminate].
    injection Hk as <-. lra.
Qed.

Lemma iceless_levels_zero_demo :
  exists levels levels',
    u_levels demo 0 3 = Some levels /\ u_levels demo_out 0 3 = Some levels' /\
    length levels' = length levels /\
    (forall k uk, nth_error levels' k = Some uk -> uk = 0).
Proof.
  apply (iceless_levels_zero demo demo_out 3).
  - exact main_demo.
  - reflexivity.
Defined.

(** ** What the script leaves alone *)

Lemma final_levels_length levels v t :
  levels <> [] -> length (final_levels levels v t) = length levels.
Proof.
  intros Hne. unfold final_levels.
  assert (L : length (removelast levels ++ [v]) = length levels).
  { destruct (set_last_length levels v (removelast levels ++ [v]))
      as [_ L]; [|exact L].
    destruct levels; [contradiction|reflexivity]. }
  destruct (Np.eqb t 0.0); [rewrite length_map|]; exact L.
Qed.

Lemma fill_shape v a : map (@length R) (fill v a) = map (@length R) a.
Proof.
  unfold fill. rewrite map_map. apply map_ext. intros row.
  apply length_map.
Qed.

(** X12.  The script changes no shape: every coordinate array and every
    field has at the end the records, cells and levels it had. *)
Theorem main_keeps_shapes (g g' : Dataset) :
  main g = Some g' ->
  length (xCell g') = length (xCell g) /\
  length (yCell g') = length (yCell g) /\
  length (xEdge g') = length (xEdge g) /\
  length (yEdge g') = length (yEdge g) /\
  length (xVertex g') = length (xVertex g) /\
  length (yVertex g') = length (yVertex g) /\
  map (@length R) (thickness g') = map (@length R) (thickness g) /\
  map (@length R) (bedTopography g') = map (@length R) (bedTopography g) /\
  length (layerThicknessFractions g')
  = length (layerThicknessFractions g) /\
  map (@length R) (meltInput g') = map (@length R) (meltInput g) /\
  map (map (@length R)) (uReconstructX g')
  = map (map (@length R)) (uReconstructX g) /\
  map (@length R) (waterThickness g') = map (@length R) (waterThickness g).
Proof.
  intros H.
  destruct (main_inv _ _ H) as (g1 & r & thk & ltf & v & u & w &
                                E1 & E2 & E3 & E4 & E5 & E6 & ->).
  destruct (putOriginOnACell_inv _ _ _ E1)
    as (c & xc & yc & _ & _ & _ & Eg & _).
  destruct (set_thickness_inv _ _ _ E2)
    as (row & rest & row' & Ethk & -> & Lrow & Lrow' & _).
  destruct (set_layerThicknessFractions_inv _ _ _ E3) as [_ ->].
  destruct (velo_inv _ _ E4) as [Lv Hv].
  destruct (set_uReconstructX_inv _ _ _ _ E5)
    as (cells & urest & cells' & thk0 & Eu & -> & _ & Lc & _ & Hu).
  destruct (set_uReconstructX_length _ _ _ _ E5)
    as (cells0 & rest0 & E0 & Lc').
  injection E0 as <- _.
  destruct (set_waterThickness_inv _ _ _ E6)
    as (wrow & wrest & Ew & Lw & ->).
  rewrite Eg, Ethk, Eu, Ew.
  cbn [xCell yCell xEdge yEdge xVertex yVertex thickness bedTopography
       layerThicknessFractions meltInput uReconstructX waterThickness
       translate map].
  rewrite !length_map, !fill_shape.
  repeat split; try reflexivity.
  - congruence.
  - f_equal. apply nth_error_ext. intros n. rewrite !nth_error_map.
    destruct (nth_error v n) as [vn|] eqn:En.
    + destruct (Hu n vn En) as (levels & t & Hl & Hne & _ & Hl').
      rewrite Hl, Hl'. cbn [option_map]. f_equal.
      apply final_levels_length. exact Hne.
    + apply nth_error_None in En.
      assert (N1 : nth_error cells' n = None)
        by (apply nth_error_None; lia).
      assert (N2 : nth_error cells n = None)
        by (apply nth_error_None; lia).
      rewrite N1, N2. reflexivity.
  - congruence.
Qed.

Lemma main_keeps_shapes_demo :
  map (map (@length R)) (uReconstructX demo_out)
  = map (map (@length R)) (uReconstructX demo).
Proof.
  destruct (main_keeps_shapes demo demo_out main_demo)
    as (_ & _ & _ & _ & _ & _ & _ & _ & _ & _ & H & _).
  exact H.
Defined.

(** X13.  The script writes neither the number of levels nor
    [sfcMassBal], which it opens, nor a record other than record 0 of
    [thickness], [uReconstructX] and [waterThickness]. *)
Theorem main_frame (g g' : Dataset) :
  main g = Some g' ->
  nVertLevels g' = nVertLevels g /\
  sfcMassBal g' = sfcMassBal g /\
  tl (thickness g') = tl (thickness g) /\
  tl (uReconstructX g') = tl (uReconstructX g) /\
  tl (waterThickness g') = tl (waterThickness g).
Proof.
  intros H.
  destruct (main_inv _ _ H) as (g1 & r & thk & ltf & v & u & w &
                                _ & E2 & _ & _ & E5 & E6 & ->).
  destruct (set_thickness_inv _ _ _ E2)
    as (row & rest & row' & -> & -> & _).
  destruct (set_uReconstructX_inv _ _ _ _ E5)
    as (cells & urest & cells' & thk0 & -> & -> & _).
  destruct (set_waterThickness_inv _ _ _ E6)
    as (wrow & wrest & -> & _ & ->).
  repeat split.
Qed.

Lemma main_frame_demo :
  nVertLevels demo_out = nVertLevels demo /\
  sfcMassBal demo_out = sfcMassBal demo /\
  tl (thickness demo_out) = tl (thickness demo) /\
  tl (uReconstructX demo_out) = tl (uReconstructX demo) /\
  tl (waterThickness demo_out) = tl (waterThickness demo).
Proof.
  apply (main_frame demo demo_out). exact main_demo.
Defined.

(** X14.  At the end the bed is 0 and the melt input 0.0002 in every
    record and at every cell: of the two writes of lines 72 and 73 the
    second one stays. *)
Theorem flat_bed_constant_melt (g g' : Dataset) :
  main g = Some g' ->
  (forall t row, nth_error (bedTopography g') t = Some row ->
                 Forall (fun b => b = 0) row) /\
  (forall t row, nth_error (meltInput g') t = Some row ->
                 Forall (fun m => m = 0.0002) row).
Proof.
  intros H.
  destruct (main_inv _ _ H) as (g1 & r & thk & ltf & v & u & w &
                                _ & _ & _ & _ & _ & _ & ->).
  cbn [bedTopography meltInput]. rewrite fill_fill. unfold fill.
  split; intros t row Ht; rewrite nth_error_map in Ht;
    destruct (nth_error _ t) as [row0|]; try discriminate;
    injection Ht as <-; apply Forall_forall; intros x Hx;
    apply in_map_iff in Hx; destruct Hx as [y [<- _]]; lra.
Qed.

Lemma flat_bed_constant_melt_demo :
  Forall (fun b => b = 0) [0; 0; 0; 0; 0; 0] /\
  Forall (fun m => m = 0.0002)
         [0.0002; 0.0002; 0.0002; 0.0002; 0.0002; 0.0002].
Proof.
  destruct (flat_bed_constant_melt demo demo_out main_demo) as [Hb Hm].
  split; [apply (Hb 0%nat)|apply (Hm 0%nat)]; reflexivity.
Defined.

(** ** The command line *)

Lemma write_file_same fs name g : write_file fs name g name = Some g.
Proof. unfold write_file. rewrite String.eqb_refl. reflexivity. Qed.

Lemma write_file_other fs name g n :
  n <> name -> write_file fs name g n = fs n.
Proof.
  intros Hn. unfold write_file.
  destruct (String.eqb n name) eqn:E; [|reflexivity].
  apply String.eqb_eq in E. contradiction.
Qed.

Lemma script_inv option_f fs fs' out :
  script option_f fs = Some (fs', out) ->
  exists gridfile g,
    fs (fst (filename_option option_f)) = Some gridfile /\
    main gridfile = Some g /\
    fs' = write_file fs (fst (filename_option option_f)) g /\
    out = snd (filename_option option_f)
          ++ [success_line (fst (filename_option option_f))].
Proof.
  unfold script. intros H.
  destruct (fs (fst (filename_option option_f))) as [gridfile|];
    [|discriminate].
  destruct (main gridfile) as [g|] eqn:Eg; [|discriminate].
  injection H as <- <-. exists gridfile, g. auto.
Qed.

(** X15.  Without [-f], and with an empty name, the script works on
    [landice_grid.nc]: it says so first, sets the fields of that file,
    leaves every other file as it is and ends on the success line. *)
Theorem script_default_file
  (option_f : option String.string) (fs fs' : Files)
  (out : list String.string) :
  option_f = None \/ option_f = Some ""%string ->
  script option_f fs = Some (fs', out) ->
  exists gridfile g,
    fs "landice_grid.nc"%string = Some gridfile /\
    main gridfile = Some g /\
    fs' "landice_grid.nc"%string = Some g /\
    (forall n, n <> "landice_grid.nc"%string -> fs' n = fs n) /\
    out = ["No file specified.  Attempting to use landice_grid.nc"%string;
           "Successfully added initial conditions to:  landice_grid.nc"%string].
Proof.
  intros Ho H.
  destruct (script_inv _ _ _ _ H) as (gridfile & g & Hf & Hm & -> & ->).
  assert (E : filename_option option_f
              = (default_filename,
                 ["No file specified.  Attempting to use landice_grid.nc"
                  %string])).
  { destruct Ho as [->| ->]; reflexivity. }
  rewrite E in *. cbn [fst snd] in *.
  exists gridfile, g. split; [exact Hf|]. split; [exact Hm|].
  split; [apply write_file_same|]. split; [|reflexivity].
  intros n Hn. apply write_file_other. exact Hn.
Qed.

(** X16.  With a name after [-f] the script works on that file: it sets
    its fields, leaves every other file as it is and prints the success
    line alone; it raises when the file is not there. *)
Theorem script_named_file
  (name : String.string) (fs : Files) :
  name <> ""%string ->
  match script (Some name) fs with
  | Some (fs', out) =>
      exists gridfile g,
        fs name = Some gridfile /\ main gridfile = Some g /\
        fs' name = Some g /\
        (forall n, n <> name -> fs' n = fs n) /\
        out = [success_line name]
  | None => fs name = None \/ exists gridfile,
              fs name = Some gridfile /\ main gridfile = None
  end.
Proof.
  intros Hne.
  assert (E : filename_option (Some name) = (name, [])).
  { destruct name; [contradiction|reflexivity]. }
  destruct (script (Some name) fs) as [[fs' out]|] eqn:H.
  - destruct (script_inv _ _ _ _ H) as (gridfile & g & Hf & Hm & -> & ->).
    rewrite E in *. cbn [fst snd] in *.
    exists gridfile, g. split; [exact Hf|]. split; [exact Hm|].
    split; [apply write_file_same|]. split; [|reflexivity].
    intros n Hn. apply write_file_other. exact Hn.
  - unfold script in H. rewrite E in H. cbn [fst snd] in H.
    destruct (fs name) as [gridfile|]; [|left; reflexivity].
    right. exists gridfile. split; [reflexivity|].
    destruct (main gridfile); [discriminate|reflexivity].
Qed.

Lemma demo_script_default :
  script None demo_files
  = Some (write_file demo_files default_filename demo_out,
          ["No file specified.  Attempting to use landice_grid.nc"%string;
           "Successfully added initial conditions to:  landice_grid.nc"
           %string]).
Proof.
  unfold script. cbn [filename_option fst snd].
  change (demo_files default_filename) with (Some demo).
  cbv beta iota. rewrite main_demo. reflexivity.
Qed.

Lemma script_default_file_demo :
  exists gridfile g,
    demo_files "landice_grid.nc"%string = Some gridfile /\
    main gridfile = Some g /\
    write_file demo_files default_filename demo_out "landice_grid.nc"%string
    = Some g /\
    (forall n, n <> "landice_grid.nc"%string ->
               write_file demo_files default_filename demo_out n
               = demo_files n) /\
    ["No file specified.  Attempting to use landice_grid.nc"%string;
     "Successfully added initial conditions to:  landice_grid.nc"%string]
    = ["No file specified.  Attempting to use landice_grid.nc"%string;
       "Successfully added initial conditions to:  landice_grid.nc"%string].
Proof.
  apply (script_default_file None demo_files).
  - left. reflexivity.
  - exact demo_script_default.
Defined.

Lemma script_named_file_demo :
  match script (Some "dome.nc"%string) demo_files with
  | Some (fs', out) =>
      exists gridfile g,
        demo_files "dome.nc"%string = Some gridfile /\
        main gridfile = Some g /\
        fs' "dome.nc"%string = Some g /\
        (forall n, n <> "dome.nc"%string -> fs' n = demo_files n) /\
        out = [success_line "dome.nc"%string]
  | None => demo_files "dome.nc"%string = None \/ exists gridfile,
              demo_files "dome.nc"%string = Some gridfile /\
              main gridfile = None
  end.
Proof.
  apply (script_named_file "dome.nc"%string demo_files). discriminate.
Defined.

(** ** The extent of the ice *)

(** X17.  There is ice exactly at the cells within 22500 of the origin:
    the margin is at 22500, not at r0. *)
Theorem ice_iff_within_22500 (g g' : Dataset) (i : nat) (ri t : R) :
  main g = Some g' ->
  cell_radius g' i = Some ri -> thickness0 g' i = Some t ->
  (t <> 0 <-> ri <= 22500).
Proof.
  intros H Hri Ht.
  destruct (main_cell _ _ _ _ H Hri) as [Ti _].
  rewrite Ti in Ht. injection Ht as <-.
  destruct (final_thickness_range ri (cell_radius_nonneg _ _ _ Hri))
    as [[Hout ->]|(Hin & -> & Hd)]; split; intros; lra.
Qed.

Lemma ice_iff_within_22500_demo : 95 <> 0 <-> 22500 <= 22500.
Proof.
  apply (ice_iff_within_22500 demo demo_out 2).
  - exact main_demo.
  - rewrite demo_out_radius. reflexivity.
  - reflexivity.
Defined.

(** * The script in binary64 *)

Module B64Facts.

Import PrimFloat.
Local Open Scope float_scope.

Lemma zip_with_nth64 (f : float -> float -> float) :
  forall a b l, B64.zip_with f a b = Some l ->
  forall i, nth_error l i =
            (x <- nth_error a i ;; y <- nth_error b i ;; Some (f x y)).
Proof.
  induction a as [|x a IH]; intros [|y b] l H; simpl in H; try discriminate.
  - injection H as <-. intros [|i]; reflexivity.
  - destruct (B64.zip_with f a b) as [t|] eqn:E; [|discriminate].
    injection H as <-. intros [|i]; simpl; [reflexivity|].
    apply IH; assumption.
Qed.

Lemma mask_assign_compress_nth64 (p : float -> bool) (f : float -> float) :
  forall row r row',
  B64.mask_assign row (map p r) (map f (B64.compress (map p r) r))
    = Some row' ->
  forall i, nth_error row' i =
            (x <- nth_error row i ;; ri <- nth_error r i ;;
             Some (if p ri then f ri else x)).
Proof.
  induction row as [|x row IH]; intros [|ri r] row' H; simpl in H;
    try discriminate.
  - injection H as <-. intros [|i]; reflexivity.
  - destruct (p ri) eqn:Ep; simpl in H;
      destruct (B64.mask_assign row (map p r)
                  (map f (B64.compress (map p r) r))) as [t|] eqn:E;
      try discriminate;
      injection H as <-; intros [|i]; simpl;
      try (rewrite Ep; reflexivity); apply IH; assumption.
Qed.

Lemma mask_assign_compress_length64 (p : float -> bool) (f : float -> float) :
  forall row r row',
  B64.mask_assign row (map p r) (map f (B64.compress (map p r) r))
    = Some row' ->
  length r = length row.
Proof.
  induction row as [|x row IH]; intros [|ri r] row' H; simpl in H;
    try discriminate.
  - reflexivity.
  - destruct (p ri) eqn:Ep; simpl in H;
      destruct (B64.mask_assign row (map p r)
                  (map f (B64.compress (map p r) r))) as [t|] eqn:E;
      try discriminate;
      simpl; f_equal; apply (IH _ _ E).
Qed.

(** The thickness lines 61 and 62 leave at an entry of [r]. *)
Lemma set_thickness_nth64 thk r thk' i ri :
  B64.set_thickness thk r = Some thk' -> nth_error r i = Some ri ->
  exists old,
    (row <- nth_error thk' 0 ;; nth_error row i)
    = Some (if 22500.0 <? ri then 0.0
            else if ri <? B64.r0 then B64.dome ri else old).
Proof.
  unfold B64.set_thickness. intros H Hi.
  destruct (Np.on_record0 _ thk) as [thk1|] eqn:E1; [|discriminate].
  destruct (on_record0_inv _ _ _ E1) as (row & rest & row1 & -> & F1 & ->).
  destruct (on_record0_inv _ _ _ H) as (row1' & rest' & row2 & E & F2 & ->).
  injection E as <- <-.
  pose proof (mask_assign_compress_length64 _ _ _ _ _ F1) as L1.
  unfold B64.mask_fill in F2.
  assert (Hlt : (i < length r)%nat) by (apply nth_error_Some; congruence).
  destruct (nth_error row i) as [old|] eqn:Eo;
    [|apply nth_error_None in Eo; lia].
  exists old. cbn [nth_error].
  rewrite (mask_apply_nth _ _ _ _ F2 i).
  rewrite (mask_assign_compress_nth64 _ _ _ _ _ F1 i).
  rewrite nth_error_map, Eo, Hi. reflexivity.
Qed.

(** The thickness the script leaves at a cell, from the radius of the
    cell. *)
Lemma main_thickness64 g g' i ri :
  B64.main g = Some g' -> B64.cell_radius g' i = Some ri ->
  exists old,
    B64.thickness0 g' i
    = Some (if 22500.0 <? ri then 0.0
            else if ri <? B64.r0 then B64.dome ri else old).
Proof.
  unfold B64.main. intros H Hr.
  destruct (B64.putOriginOnACell g) as [[g1 r]|] eqn:E1; [|discriminate].
  cbn [fst snd] in H.
  destruct (B64.set_thickness (B64.thickness g1) r) as [thk|] eqn:E2;
    [|discriminate].
  destruct (B64.set_layerThicknessFractions _ _) as [ltf|]; [|discriminate].
  destruct (B64.velo r) as [v|]; [|discriminate].
  destruct (B64.set_uReconstructX _ thk v) as [u|]; [|discriminate].
  destruct (B64.set_waterThickness _ r) as [w|]; [|discriminate].
  injection H as <-.
  unfold B64.thickness0. cbn [B64.thickness].
  apply (set_thickness_nth64 _ _ _ _ _ E2).
  unfold B64.putOriginOnACell in E1.
  destruct (B64.shift g) as [s|]; [|discriminate].
  cbn zeta in E1.
  destruct (B64.radii _ _ 0.0 0.0) as [r'|] eqn:Er; [|discriminate].
  injection E1 as <- <-.
  rewrite (zip_with_nth64 _ _ _ _ Er i).
  unfold B64.cell_radius, B64.cell_xy in Hr.
  cbn [B64.xCell B64.yCell] in Hr.
  destruct (nth_error _ i) as [x|]; [|discriminate].
  destruct (nth_error _ i) as [y|]; [|discriminate].
  exact Hr.
Qed.

(** C10, as it holds.  At a cell whose radius is 22500 exactly the
    thickness is the value line 61 computes there,
    500.0 * (1.0 - (22500.0 / 25000.0) ** 2), which is
    94.999999999999972 in binary64, and not 0: [r < r0] holds and
    [r > 22500.0] does not. *)
Theorem thickness_at_22500_binary64
  (g g' : B64.Dataset) (i : nat) (ri : float) :
  B64.main g = Some g' -> B64.cell_radius g' i = Some ri -> ri = 22500 ->
  B64.thickness0 g' i
  = Some (500.0 * (1.0 - (22500.0 / 25000.0) * (22500.0 / 25000.0))) /\
  500.0 * (1.0 - (22500.0 / 25000.0) * (22500.0 / 25000.0))
  = 94.999999999999972 /\
  B64.thickness0 g' i <> Some 0.
Proof.
  intros H Hr ->.
  destruct (main_thickness64 _ _ _ _ H Hr) as [old Ht].
  change (22500.0 <? 22500) with false in Ht.
  change (22500 <? B64.r0) with true in Ht.
  cbv iota in Ht. rewrite Ht.
  split; [reflexivity|]. split; [reflexivity|].
  vm_compute. discriminate.
Qed.

Lemma main_dome_mesh : B64.main B64.dome_mesh = Some B64.dome_mesh_out.
Proof. vm_compute. reflexivity. Qed.

Lemma thickness_at_22500_binary64_demo :
  B64.thickness0 B64.dome_mesh_out 2
  = Some (500.0 * (1.0 - (22500.0 / 25000.0) * (22500.0 / 25000.0))) /\
  500.0 * (1.0 - (22500.0 / 25000.0) * (22500.0 / 25000.0))
  = 94.999999999999972 /\
  B64.thickness0 B64.dome_mesh_out 2 <> Some 0.
Proof.
  apply (thickness_at_22500_binary64 B64.dome_mesh B64.dome_mesh_out 2 22500).
  - exact main_dome_mesh.
  - vm_compute. reflexivity.
  - reflexivity.
Defined.

(** C10, as stated, fails: cell 2 of [dome_mesh] is 22500 away from the
    origin, and its thickness is 94.999999999999972, not 95. *)
Lemma thickness_at_22500_is_not_95 :
  B64.main B64.dome_mesh = Some B64.dome_mesh_out /\
  B64.cell_radius B64.dome_mesh_out 2 = Some 22500 /\
  B64.thickness0 B64.dome_mesh_out 2 = Some 94.999999999999972 /\
  (94.999999999999972 =? 95) = false.
Proof.
  split; [exact main_dome_mesh|]. repeat split; vm_compute; reflexivity.
Qed.

(** C2, as stated, fails: the cells 0 and 1 of [dome_mesh] are 0 and
    0.0001 away from the origin and both have thickness 500; the cells 3
    and 4 are 23000 and 24000 away, within r0, and both have thickness
    0. *)
Lemma thickness_equal_at_distinct_radii :
  B64.main B64.dome_mesh = Some B64.dome_mesh_out /\
  B64.cell_radius B64.dome_mesh_out 0 = Some 0 /\
  B64.cell_radius B64.dome_mesh_out 1 = Some 0.0001 /\
  (0 <? 0.0001) = true /\ (0.0001 <? B64.r0) = true /\
  B64.thickness0 B64.dome_mesh_out 0 = Some 500 /\
  B64.thickness0 B64.dome_mesh_out 1 = Some 500 /\
  B64.cell_radius B64.dome_mesh_out 3 = Some 23000 /\
  B64.cell_radius B64.dome_mesh_out 4 = Some 24000 /\
  (23000 <? 24000) = true /\ (24000 <? B64.r0) = true /\
  B64.thickness0 B64.dome_mesh_out 3 = Some 0 /\
  B64.thickness0 B64.dome_mesh_out 4 = Some 0.
Proof.
  split; [exact main_dome_mesh|]. repeat split; vm_compute; reflexivity.
Qed.

(** C7, as stated, fails: on [uneven_mesh] the script chooses cell 1 and
    shifts by -0.2; the cells 0 and 2 are 1 apart before and
    1.0000000000000002 apart after, each sum being rounded. *)
Lemma translation_changes_differences :
  exists g1 r,
    B64.putOriginOnACell B64.uneven_mesh = Some (g1, r) /\
    B64.centerCellIndex B64.uneven_mesh = Some 1%nat /\
    B64.xCell B64.uneven_mesh = [0.1; 0.2; 1.1] /\
    B64.xCell g1 = [0.1 + -1.0 * 0.2; 0.2 + -1.0 * 0.2; 1.1 + -1.0 * 0.2] /\
    1.1 - 0.1 = 1 /\
    (1.1 + -1.0 * 0.2) - (0.1 + -1.0 * 0.2) = 1.0000000000000002 /\
    (1 =? 1.0000000000000002) = false.
Proof.
  eexists _, _. split; [vm_compute; reflexivity|].
  repeat split; vm_compute; reflexivity.
Qed.


End B64Facts.
